(** * BAE / OCAE audio engine: dispatch table, echo, resampler, triangle
      oscillator, node combination, vocoder offset and WAV loading.

    The development is a shallow embedding of the C++ sources.  Conventions:

    - [Math_t] (double) and [SampleType] (float or double) are modelled by the
      exact rationals [Q]: rounding, infinities and NaN are not modelled, and
      the casts between the two types are the identity.  Equality of samples
      is therefore [Qeq] ([==]), lifted to frames as [StereoData_eq].
    - unsigned 64-bit integers are [Z] with the wrap-around written out
      ([wrap64]); a conversion from a floating value whose truncation is not
      representable is undefined behaviour in C++ and yields [None].
    - container accesses that C++ leaves undefined ([front] of an empty
      deque, [operator[]] past the end) yield [None]; [at] on a missing key
      throws [out_of_range].
    - container sizes and call counts are [nat]. *)

From Stdlib Require Import ZArith QArith Lia Lqa.
From Stdlib.Strings Require Import Byte.
From stdpp Require Import base option list strings gmap.

Local Open Scope Z_scope.

(** ** Samples and frames (Types.hpp) *)

Definition Math_t : Type := Q.
Definition SampleType : Type := Q.
Definition StereoData : Type := (SampleType * SampleType)%type.
Bind Scope Q_scope with Math_t SampleType.

(** [Left] and [Right] are the engine's accessors [std::get<0>] and
    [std::get<1>] on a frame. *)
Definition Left (s : StereoData) : SampleType := fst s.
Definition Right (s : StereoData) : SampleType := snd s.

(** [StereoData()] and [StereoData(SampleType(0), SampleType(0))]. *)
Definition silence : StereoData := (0%Q, 0%Q).

Definition StereoData_eq (a b : StereoData) : Prop :=
  (Left a == Left b)%Q /\ (Right a == Right b)%Q.

Infix "=s=" := StereoData_eq (at level 70, no associativity).

(** A frame whose two channels lie within [lo, hi]. *)
Definition StereoData_within (lo hi : SampleType) (s : StereoData) : Prop :=
  (lo <= Left s <= hi)%Q /\ (lo <= Right s <= hi)%Q.


(** A call count as a rational. *)
Definition Qnat (n : nat) : Q := inject_Z (Z.of_nat n).

(** ** Unsigned 64-bit arithmetic and float-to-integer conversion *)

Definition two64 : Z := 2 ^ 64.
Definition wrap64 (z : Z) : Z := z mod two64.

(** Truncation toward zero, as a C++ floating-to-integral conversion. *)
Definition Qtrunc (q : Q) : Z := Z.quot (Qnum q) (Zpos (Qden q)).

(** [uint64_t(x)] / [size_t(x)] for a floating [x]: defined only when the
    truncated value is representable. *)
Definition to_u64 (q : Q) : option Z :=
  let t := Qtrunc q in
  if (0 <=? t) && (t <? two64) then Some t else None.

(** ** Dispatch table (MethodTable.hpp, both generations) *)

Module MethodTable.
Section Dispatch.
(** [World] is the state a registered callable may touch, [Args] the
    type-erased argument bundle passed as [void*]. *)
Context {World Args : Type}.

Inductive exn : Type :=
| out_of_range
| other_exn (what : string).

Inductive outcome : Type :=
| Returned (w : World)
| Thrown (e : exn).

Definition Void_fn : Type := Args -> World -> outcome.

(** Newer generation: a per-instance [m_Table]. *)
Definition CallMethod (m_Table : gmap string Void_fn)
    (fn : string) (params : Args) (w : World) : outcome :=
  match m_Table !! fn with
  | Some f => f params w
  | None => Thrown out_of_range
  end.

(** Older generation: one static [s_Table] keyed by the instance address. *)
Definition CallMethod_static (s_Table : gmap positive (gmap string Void_fn))
    (this : positive) (fn : string) (params : Args) (w : World) : outcome :=
  match s_Table !! this with
  | Some tbl =>
      match tbl !! fn with
      | Some f => f params w
      | None => Thrown out_of_range
      end
  | None => Thrown out_of_range
  end.

(** The methods registered for an instance in the static table. *)
Definition methods_of (s_Table : gmap positive (gmap string Void_fn))
    (this : positive) : gmap string Void_fn :=
  default ∅ (s_Table !! this).
End Dispatch.
Arguments exn : clear implicits.
Arguments outcome : clear implicits.
Arguments Void_fn : clear implicits.
End MethodTable.

(** ** Echo (Echo.cpp) *)

Module Echo.
Record t : Type := mk {
  m_Echo : list StereoData;
  m_Ratio : Math_t
}.

(** [Echo::Echo(sample_delay, decay_ratio)]: the deque holds
    [sample_delay] copies of [StereoData()]. *)
Definition Echo (sample_delay : nat) (decay_ratio : Math_t) : t :=
  mk (replicate sample_delay silence) decay_ratio.

(** [Echo::FilterSample]: [front]/[pop_front] on an empty deque is
    undefined, hence [None]. *)
Definition FilterSample (e : t) (dry : StereoData) : option (StereoData * t) :=
  match m_Echo e with
  | [] => None
  | wet :: rest =>
      let out : StereoData :=
        ((Left wet * m_Ratio e + Left dry)%Q,
         (Right wet * m_Ratio e + Right dry)%Q) in
      Some (out, mk (rest ++ [out]) (m_Ratio e))
  end.

(** The frame one call computes from the popped frame and the input. *)
Definition echo_out (ratio : Math_t) (wet dry : StereoData) : StereoData :=
  ((Left wet * ratio + Left dry)%Q, (Right wet * ratio + Right dry)%Q).

(** Feeding a sequence of input frames, one call per frame. *)
Fixpoint FilterSamples (e : t) (input : list StereoData)
    : option (list StereoData * t) :=
  match input with
  | [] => Some ([], e)
  | dry :: input' =>
      '(out, e') ← FilterSample e dry;
      '(outs, e'') ← FilterSamples e' input';
      Some (out :: outs, e'')
  end.
End Echo.

(** ** Resampler (src.old/Tools/Resampler.cpp) *)

Module Resampler.
Record t : Type := mk {
  m_Data : list StereoData;
  m_Index : Math_t;
  m_IndexIncrement : Math_t;
  m_PlaybackSpeed : Math_t;
  m_LoopStart : Z;
  m_LoopEnd : Z
}.

(** [m_Data[i]] for an unsigned index; past the end it is undefined. *)
Definition elem (data : list StereoData) (i : Z) : option StereoData :=
  data !! Z.to_nat i.

(** [m_Data.size()]. *)
Definition size (r : t) : Z := Z.of_nat (length (m_Data r)).

(** [Math_t(m_LoopEnd - m_LoopStart)], the subtraction being unsigned. *)
Definition loop_length (r : t) : Math_t :=
  inject_Z (wrap64 (m_LoopEnd r - m_LoopStart r)).

Section Construction.
(** The macro [OCAE_INC_RATE] (the duration of one engine tick) is
    defined outside the sources at hand and is taken as a parameter. *)
Variable OCAE_INC_RATE : Math_t.

Definition Resampler (AudioData : list StereoData) (SourceSampleRate : Z)
    (LoopStart LoopEnd : Z) : t :=
  mk AudioData 0%Q (inject_Z SourceSampleRate * OCAE_INC_RATE)%Q 1%Q
     LoopStart LoopEnd.
End Construction.

Definition SetPlaybackSpeed (r : t) (playback : Math_t) : t :=
  mk (m_Data r) (m_Index r) (m_IndexIncrement r) playback
     (m_LoopStart r) (m_LoopEnd r).

(** The second interpolation point [p1]. *)
Definition next_point (r : t) (idx : Z) : option StereoData :=
  if (size r <=? wrap64 (idx + 1)) && negb (m_LoopEnd r =? 0) then
    j ← to_u64 (m_Index r - loop_length r)%Q;
    elem (m_Data r) j
  else if size r <=? wrap64 (idx + 1) then elem (m_Data r) idx
  else elem (m_Data r) (wrap64 (idx + 1)).

(** The cursor after one advancing call. *)
Definition advance (r : t) : Math_t :=
  let index := (m_Index r + m_IndexIncrement r * m_PlaybackSpeed r)%Q in
  if Qle_bool (inject_Z (m_LoopEnd r)) index && negb (m_LoopEnd r =? 0)
  then (index - loop_length r)%Q
  else index.

(** [Resampler::Process].  The fraction and the interpolated samples are
    exact here; the code casts them to [SampleType], which rounds. *)
Definition Process (r : t) : option (StereoData * t) :=
  idx ← to_u64 (m_Index r);
  if (size r <=? idx) && (m_LoopEnd r =? 0) then Some (silence, r)
  else
    let fraction : SampleType := (m_Index r - inject_Z idx)%Q in
    p1 ← next_point r idx;
    x1 ← elem (m_Data r) idx;
    let l : SampleType := (Left x1 + fraction * (Left p1 - Left x1))%Q in
    let r' : SampleType := (Right x1 + fraction * (Right p1 - Right x1))%Q in
    Some ((l, r'),
          mk (m_Data r) (advance r) (m_IndexIncrement r) (m_PlaybackSpeed r)
             (m_LoopStart r) (m_LoopEnd r)).

(** [n] consecutive calls of [Process], collecting the frames. *)
Fixpoint Process_n (n : nat) (r : t) : option (list StereoData * t) :=
  match n with
  | O => Some ([], r)
  | S n' =>
      '(s, r1) ← Process r;
      '(ss, r2) ← Process_n n' r1;
      Some (s :: ss, r2)
  end.

(** Call sequences mixing [Process] and [SetPlaybackSpeed]. *)
Inductive call : Type :=
| CallProcess
| CallSetPlaybackSpeed (playback : Math_t).

Definition do_call (r : t) (c : call) : option t :=
  match c with
  | CallProcess => snd <$> Process r
  | CallSetPlaybackSpeed p => Some (SetPlaybackSpeed r p)
  end.

Fixpoint do_calls (r : t) (cs : list call) : option t :=
  match cs with
  | [] => Some r
  | c :: cs' => r' ← do_call r c; do_calls r' cs'
  end.

(** Forward playback over a well-formed loop window: cursor, increment
    and speed are not negative, and the unsigned window bounds are in
    order. *)
Definition forward (r : t) : Prop :=
  (0 <= m_Index r)%Q /\ (0 <= m_IndexIncrement r)%Q
  /\ (0 <= m_PlaybackSpeed r)%Q
  /\ 0 <= m_LoopStart r <= m_LoopEnd r /\ m_LoopEnd r < two64.

(** A player without a loop whose cursor sits on the integer [k] and
    moves by one frame per call. *)
Definition unit_step (r : t) (k : nat) : Prop :=
  m_LoopEnd r = 0
  /\ (m_Index r == inject_Z (Z.of_nat k))%Q
  /\ (m_IndexIncrement r * m_PlaybackSpeed r == 1)%Q
  /\ size r < two64.

(** Two players that agree up to the representation of the rationals. *)
Definition equiv (r1 r2 : t) : Prop :=
  m_Data r1 = m_Data r2
  /\ (m_Index r1 == m_Index r2)%Q
  /\ (m_IndexIncrement r1 == m_IndexIncrement r2)%Q
  /\ (m_PlaybackSpeed r1 == m_PlaybackSpeed r2)%Q
  /\ m_LoopStart r1 = m_LoopStart r2
  /\ m_LoopEnd r1 = m_LoopEnd r2.



(** The loop the WAV generator configures, at one frame per call: the
    window is [0, size - 1) and the cursor sits on the integer [k]. *)
Definition loop_step (r : t) (k : nat) : Prop :=
  m_LoopStart r = 0
  /\ m_LoopEnd r = size r - 1
  /\ 1 <= m_LoopEnd r
  /\ (m_Index r == inject_Z (Z.of_nat k))%Q
  /\ Z.of_nat k < m_LoopEnd r
  /\ (m_IndexIncrement r * m_PlaybackSpeed r == 1)%Q
  /\ size r < two64.

Definition nonneg_speed (c : call) : Prop :=
  match c with
  | CallProcess => True
  | CallSetPlaybackSpeed p => (0 <= p)%Q
  end.
End Resampler.

(** ** Triangle oscillator (Triangle.cpp) *)

Module Triangle.
Record t : Type := mk {
  m_Irate : Math_t;
  m_Inc : Math_t
}.

(** Modelled from the spec: the macro [MONO_TO_STEREO] is defined outside
    the sources at hand; the output is the value duplicated to both
    channels. *)
Definition MONO_TO_STEREO (x : Math_t) : StereoData := (x, x).

Section Construction.
(** The macro [INC_RATE] (the duration of one engine tick) is taken as a
    parameter. *)
Variable INC_RATE : Math_t.

Definition Triangle (freq : Math_t) : t :=
  mk (4 * freq * INC_RATE)%Q 0%Q.

Definition SetFrequency (g : t) (freq : Math_t) : t :=
  let freq' := if negb (Qle_bool 0 (m_Irate g)) then (freq * -1)%Q else freq in
  mk (4 * freq' * INC_RATE)%Q (m_Inc g).
End Construction.

Definition SendSample (g : t) : StereoData * t :=
  let inc := (m_Inc g + m_Irate g)%Q in
  if Qle_bool 1 inc || Qle_bool inc (-1) then
    let inc' := if Qle_bool 1 inc then (2 - inc)%Q else (-2 - inc)%Q in
    (MONO_TO_STEREO inc', mk (- m_Irate g)%Q inc')
  else (MONO_TO_STEREO inc, mk (m_Irate g) inc).

Fixpoint SendSamples (n : nat) (g : t) : list StereoData * t :=
  match n with
  | O => ([], g)
  | S n' =>
      let '(s, g1) := SendSample g in
      let '(ss, g2) := SendSamples n' g1 in
      (s :: ss, g2)
  end.

(** A frame within [-1, 1] on both channels. *)
Definition in_range (s : StereoData) : Prop :=
  (-1 <= Left s <= 1)%Q /\ (-1 <= Right s <= 1)%Q.

(** An oscillator below the Nyquist rate: the phase moves by at most 2 per
    call and lies within [-1, 1]. *)
Definition bounded (g : t) : Prop :=
  (-2 <= m_Irate g <= 2)%Q /\ (-1 <= m_Inc g <= 1)%Q.
End Triangle.

(** ** Node (Core/Node.hpp) *)

Module Node.
Section Node.
(** Generators and modifiers are polymorphic objects; a Node only uses
    their virtual sample functions. *)
Context {Gen Mod : Type}.
Variable gen_SendSample : Gen -> StereoData * Gen.
Variable mod_FilterSample : Mod -> StereoData -> StereoData * Mod.

(** [Interaction_t]: first argument the generator's sample, second the
    modifier's. *)
Definition Interaction_t : Type := StereoData -> StereoData -> StereoData.

(** [pStereoData_t]: a shared frame cell, named by its address; the store
    maps the cells to their contents. *)
Definition cell : Type := positive.
Definition store : Type := gmap cell StereoData.

Record t : Type := mk {
  m_Targets : list cell;
  m_Generator : option Gen;
  m_Modifier : option Mod;
  m_Interaction : Interaction_t;
  m_Input : cell
}.

(** The default interactors named by the constructors' documentation. *)
Definition forward_generator : Interaction_t := fun g _ => g.
Definition forward_modifier : Interaction_t := fun _ m => m.
Definition multiply : Interaction_t :=
  fun g m => ((Left g * Left m)%Q, (Right g * Right m)%Q).

(** Modelled from the spec: the constructor bodies (Node.cpp) are not
    among the sources; each constructor stores its arguments, a fresh input
    cell, and the default interactor its documentation names. *)
Definition Node_gen (gen : Gen) (input : cell) : t :=
  mk [] (Some gen) None forward_generator input.
Definition Node_mod (mod_ : Mod) (input : cell) : t :=
  mk [] None (Some mod_) forward_modifier input.
Definition Node_gen_mod (gen : Gen) (mod_ : Mod) (input : cell) : t :=
  mk [] (Some gen) (Some mod_) multiply input.
Definition Node_full (gen : Gen) (mod_ : Mod) (interactor : Interaction_t)
    (input : cell) : t :=
  mk [] (Some gen) (Some mod_) interactor input.

(** Modelled from the spec: [AddOutput] and [AddTarget] (Node.cpp) add a
    non-owning downstream edge, to a given cell and to the target's input
    cell. *)
Definition AddOutput (n : t) (output : cell) : t :=
  mk (m_Targets n ++ [output]) (m_Generator n) (m_Modifier n)
     (m_Interaction n) (m_Input n).
Definition AddTarget (n target : t) : t := AddOutput n (m_Input target).

(** Registering several downstream cells in turn. *)
Definition AddOutputs (n : t) (outputs : list cell) : t :=
  foldl AddOutput n outputs.

(** A cell that was never written holds [StereoData()]. *)
Definition read (σ : store) (c : cell) : StereoData := default silence (σ !! c).

Definition write_all (cs : list cell) (s : StereoData) (σ : store) : store :=
  foldl (fun σ' c => <[c := s]> σ') σ cs.

(** Modelled from the spec: [SendSample] (Node.cpp) takes [g] from the
    generator if present, [m] from the modifier applied to the input cell
    if present, combines them with the interaction function and writes the
    result to every downstream cell.  An absent side contributes an unused
    [StereoData()]. *)
Definition SendSample (n : t) (σ : store) : t * store :=
  let '(g, gen') :=
    match m_Generator n with
    | Some G => let '(s, G') := gen_SendSample G in (s, Some G')
    | None => (silence, None)
    end in
  let '(m, mod') :=
    match m_Modifier n with
    | Some M => let '(s, M') := mod_FilterSample M (read σ (m_Input n)) in (s, Some M')
    | None => (silence, None)
    end in
  (mk (m_Targets n) gen' mod' (m_Interaction n) (m_Input n),
   write_all (m_Targets n) (m_Interaction n g m) σ).
End Node.
End Node.

(** ** Vocoder (Modifiers/Vocoder.cpp) *)

Module Vocoder.
(** The file-level table [freq]. *)
Definition freq : list Math_t := [220; 440; 660; 880]%Q.

(** Modelled from the spec: [Carrier_t] (Vocoder.hpp) is an oscillator; of
    its state only the frequency last given to its constructor or to
    [SetFrequency] is kept.  [Base] is [Generator::Base(is_base)]. *)
Inductive Generator : Type :=
| Base (is_base : bool)
| Carrier (frequency : Math_t).

(** The modifiers the vocoder creates: the band-pass of a band and the
    envelope follower with its two corner frequencies. *)
Inductive Modifier : Type :=
| BandPass (band : nat)
| EnvelopeFollower (fd fu : Math_t).

(** A graph node, as far as the vocoder touches it. *)
Record node : Type := mk_node {
  GetGenerator : option Generator;
  GetModifier : option Modifier
}.

(** [Core::Sound]'s graph: the nodes of each layer, in insertion order. *)
Definition graph : Type := gmap nat (list node).

(** Modelled from the spec: [Sound::AddNode] (Sound.cpp) inserts a node
    into the named layer. *)
Definition AddNode (g : graph) (n : node) (layer : nat) : graph :=
  <[layer := default [] (g !! layer) ++ [n]]> g.

Record t : Type := mk {
  m_BandCount : nat;
  m_Mu : Math_t;
  m_Sound : graph
}.

(** [OscSetup]: carrier [i] is built with [freq[i] * m_Mu]; reading [freq]
    past its end is undefined. *)
Definition OscSetup (band_count : nat) (mu : Math_t) : option (list Generator) :=
  mapM (fun i => f ← freq !! i; Some (Carrier (f * mu)%Q)) (seq 0 band_count).

Definition EnvSetup (band_count : nat) : list Modifier :=
  replicate band_count (EnvelopeFollower 20 20000).

(** [BPSetup]: one band-pass per band; the filters' quality factor is
    computed from [l_Freq[0]] and [l_Freq[1]], and without a band the vector
    [l_Freq] has no element 1. *)
Definition BPSetup (band_count : nat) : option (list Modifier) :=
  match band_count with
  | O => None
  | S _ => Some (BandPass <$> seq 0 band_count)
  end.

(** The constructor's loop over the bands. *)
Fixpoint add_bands (l_BP l_Env : list Modifier) (l_Osc : list Generator)
    (g : graph) : graph :=
  match l_BP, l_Env, l_Osc with
  | bp :: l_BP', env :: l_Env', osc :: l_Osc' =>
      let g1 := AddNode g (mk_node (Some (Base true)) (Some bp)) 1 in
      let g2 := AddNode g1 (mk_node (Some osc) (Some env)) 2 in
      add_bands l_BP' l_Env' l_Osc' g2
  | _, _, _ => g
  end.

Definition Vocoder (base_input : node) (N : nat) : option t :=
  l_BP ← BPSetup N;
  l_Osc ← OscSetup N 1;
  Some (mk N 1 (add_bands l_BP (EnvSetup N) l_Osc
                          (AddNode ∅ base_input 0))).

(** The loop of [SetOffset] over [graph[2]]: [freq[++counter]], then
    [SetFrequency] through the [dynamic_cast], which yields a null pointer
    on a generator that is no carrier. *)
Fixpoint set_carriers (mu : Math_t) (counter : nat) (layer : list node)
    : option (list node) :=
  match layer with
  | [] => Some []
  | n :: layer' =>
      let counter' := S counter in
      f ← freq !! counter';
      gen' ← match GetGenerator n with
             | Some (Carrier _) => Some (Carrier (f * mu)%Q)
             | _ => None
             end;
      rest ← set_carriers mu counter' layer';
      Some (mk_node (Some gen') (GetModifier n) :: rest)
  end.

Section Offset.
(** [std::powf]. *)
Variable powf : Math_t -> Math_t -> Math_t.

Definition SetOffset (v : t) (p : Math_t) : option t :=
  let mu := powf 2 (p / 1200)%Q in
  layer2 ← set_carriers mu 0 (default [] (m_Sound v !! 2%nat));
  Some (mk (m_BandCount v) mu (<[2%nat := layer2]> (m_Sound v))).
End Offset.

(** The frequencies of the carriers of layer 2, in graph order. *)
Definition carrier_frequencies (v : t) : list (option Math_t) :=
  (fun n => match GetGenerator n with
            | Some (Carrier f) => Some f
            | _ => None
            end) <$> default [] (m_Sound v !! 2%nat).
End Vocoder.

(** ** WAV generator (WAV.cpp, OCAE generation) *)

Module WAV.
(** The fields of [Tools::WAVHeader] that [ParseWAV] reads. *)
Record WAVHeader : Type := mk_header {
  ChannelCount : Z;
  SamplingRate : Z;
  BytesPerSample : Z;
  BitsPerSample : Z
}.

Record t : Type := mk {
  m_Resampler : option Resampler.t
}.

(** A [char] as the signed value the engine's platform gives it. *)
Definition char_value (b : byte) : Z :=
  let n := Z.of_N (Byte.to_N b) in
  if n <? 128 then n else n - 256.

(** An [int16_t] read at the head of a little-endian byte sequence. *)
Definition int16_at (data : list byte) (off : nat) : option Z :=
  lo ← data !! off;
  hi ← data !! S off;
  let n := Z.of_N (Byte.to_N lo) + 256 * Z.of_N (Byte.to_N hi) in
  Some (if n <? 32768 then n else n - 65536).

Definition malformed_header : string :=
  "Error reading WAVE data, malformed header chunk".

(** The number of bytes one iteration of the decoding loop reads: one or two
    samples of one or two bytes. *)
Definition frame_width (h : WAVHeader) : nat :=
  if BitsPerSample h =? 8
  then (if ChannelCount h =? 1 then 1%nat else 2%nat)
  else (if ChannelCount h =? 1 then 2%nat else 4%nat).

Section Parsing.
(** Parts defined outside the sources at hand, taken as parameters: the
    macros [OCAE_INC_RATE] and [OCAE_SQRT_HALF], the size and the layout
    of [Tools::WAVHeader], and the RIFF reader's chunk lookup. *)
Variable OCAE_INC_RATE : Math_t.
Variable OCAE_SQRT_HALF : Math_t.
Variable sizeof_WAVHeader : nat.
Variable header_of : list byte -> WAVHeader.
Variable GetChunk : list byte -> string -> list byte.

(** The constructors leave [m_Resampler] empty. *)
Definition WAV : t := mk None.

(** One iteration's sample, read at the head of the remaining data. *)
Definition decode_sample (h : WAVHeader) (data : list byte)
    : option StereoData :=
  if BitsPerSample h =? 8 then
    if ChannelCount h =? 1 then
      b ← data !! 0%nat;
      let v := (inject_Z (char_value b * 256) * OCAE_SQRT_HALF / 32768)%Q in
      Some (v, v)
    else
      b0 ← data !! 0%nat;
      b1 ← data !! 1%nat;
      Some ((inject_Z (char_value b0 * 256) / 32768)%Q,
            (inject_Z (char_value b1 * 256) / 32768)%Q)
  else
    if ChannelCount h =? 1 then
      r ← int16_at data 0;
      let v := (inject_Z r * OCAE_SQRT_HALF / 32768)%Q in
      Some (v, v)
    else
      r0 ← int16_at data 0;
      r1 ← int16_at data 2;
      Some ((inject_Z r0 / 32768)%Q, (inject_Z r1 / 32768)%Q).

(** The decoding loop; every iteration advances by [BytesPerSample]
    bytes, so the length of the data bounds the number of iterations. *)
Fixpoint decode (fuel : nat) (h : WAVHeader) (data : list byte)
    : option (list StereoData) :=
  match data with
  | [] => Some []
  | _ :: _ =>
      match fuel with
      | O => None
      | S fuel' =>
          sample ← decode_sample h data;
          rest ← decode fuel' h (drop (Z.to_nat (BytesPerSample h)) data);
          Some (sample :: rest)
      end
  end.

(** [ParseWAV] returns the generator and the lines written to
    [std::cerr]; [None] is undefined behaviour (a division by zero, the
    element [data_vec[0]] of an empty data chunk, a read past the data
    chunk). *)
Definition ParseWAV (g : t) (array : list byte) : option (t * list string) :=
  let fmt := GetChunk array "fmt " in
  if negb (length fmt =? sizeof_WAVHeader)%nat then
    Some (g, [malformed_header])
  else
    let header := header_of fmt in
    let data_vec := GetChunk array "data" in
    if BytesPerSample header =? 0 then None
    else
      match data_vec with
      | [] => None
      | _ :: _ =>
          AudioData ← decode (length data_vec) header data_vec;
          Some (mk (Some (Resampler.Resampler OCAE_INC_RATE AudioData
                            (SamplingRate header) 0
                            (wrap64 (Z.of_nat (length AudioData) - 1)))),
                [])
      end.

Definition LoadWAV (g : t) (wav_data : list byte) : option (t * list string) :=
  ParseWAV g wav_data.
End Parsing.

Definition Process (g : t) : option (StereoData * t) :=
  match m_Resampler g with
  | Some r => '(s, r') ← Resampler.Process r; Some (s, mk (Some r'))
  | None => Some (silence, g)
  end.

Fixpoint Process_n (n : nat) (g : t) : option (list StereoData * t) :=
  match n with
  | O => Some ([], g)
  | S n' =>
      '(s, g1) ← Process g;
      '(ss, g2) ← Process_n n' g1;
      Some (s :: ss, g2)
  end.
End WAV.

(** ** WAV generator: construction and files (WAV.cpp, OCAE generation) *)

Module WAVFile.
Section Reading.
Variable OCAE_INC_RATE : Math_t.
Variable OCAE_SQRT_HALF : Math_t.
Variable sizeof_WAVHeader : nat.
Variable header_of : list byte -> WAV.WAVHeader.
Variable GetChunk : list byte -> string -> list byte.

(** The file system as [std::ifstream] sees it: the bytes of every file
    that can be opened for reading. *)
Variable open_file : string -> option (list byte).

(** [ReadFile] returns the generator, the lines written to [std::cerr] and
    the lines written to [std::cout]. *)
Definition ReadFile (g : WAV.t) (path : string)
    : option (WAV.t * list string * list string) :=
  match open_file path with
  | None => Some (g, ["WAV file " +:+ path +:+ " couldn't be opened."], [])
  | Some temp =>
      '(g', err) ←
        WAV.ParseWAV OCAE_INC_RATE OCAE_SQRT_HALF sizeof_WAVHeader header_of
          GetChunk g temp;
      Some (g', err,
            ["WAV file " +:+ path +:+ " opened for reading";
             "Loading file..."; "File successfully loaded"])
  end.

(** [WAV::WAV(std::string const & path)]. *)
Definition WAV_path (path : string)
    : option (WAV.t * list string * list string) :=
  ReadFile WAV.WAV path.

(** [WAV::WAV(std::vector<char> const & data)]. *)
Definition WAV_data (data : list byte) : option (WAV.t * list string) :=
  WAV.ParseWAV OCAE_INC_RATE OCAE_SQRT_HALF sizeof_WAVHeader header_of
    GetChunk WAV.WAV data.
End Reading.
End WAVFile.

(** * Concrete instances

    Small engine set-ups on which the statements below are exercised. *)

Module Instances.
(** An oscillator's table with the one method [SetFrequency]; the state is
    the frequency and the argument bundle the new frequency. *)
Definition sine_table : gmap string (MethodTable.Void_fn Math_t Math_t) :=
  {[ "SetFrequency" := fun freq _ => MethodTable.Returned freq ]}.

(** The static table of the older generation, holding that instance at
    address 1. *)
Definition static_table
    : gmap positive (gmap string (MethodTable.Void_fn Math_t Math_t)) :=
  {[ 1%positive := sine_table ]}.

(** A generator that produces its stored frame on every call, and a gain
    modifier. *)
Definition constant_generator (g : StereoData) : StereoData * StereoData :=
  (g, g).
Definition gain_modifier (gain : Math_t) (dry : StereoData)
    : StereoData * Math_t :=
  (((Left dry * gain)%Q, (Right dry * gain)%Q), gain).

(** A two-band vocoder over an input node without generator or modifier,
    and a stand-in for [std::powf]. *)
Definition two_band : Vocoder.t :=
  default (Vocoder.mk 0 1%Q (∅ : gmap nat (list Vocoder.node)))
    (Vocoder.Vocoder (Vocoder.mk_node None None) 2).
Definition powf_stub (base exponent : Math_t) : Math_t :=
  (1 + exponent)%Q.
End Instances.


(** Resampler set-ups: a four-frame buffer at 44100 Hz with a tick of
    1/44100 s, without a loop and with the loop window [0, 3) that the WAV
    generator configures. *)
Module ResamplerInstances.
Definition ramp : list StereoData :=
  [(0, 0); (1 # 4, -1 # 4); (1 # 2, -1 # 2); (3 # 4, -3 # 4)]%Q.
Definition tick : Math_t := (1 # 44100)%Q.
Definition one_shot : Resampler.t := Resampler.Resampler tick ramp 44100 0 0.
Definition looping : Resampler.t := Resampler.Resampler tick ramp 44100 0 3.
(** A player whose loop bounds are given in the wrong order. *)
Definition inverted : Resampler.t := Resampler.Resampler tick ramp 44100 2 1.
(** A one-shot player whose cursor has run past the buffer. *)
Definition finished : Resampler.t :=
  Resampler.mk ramp (9 # 2)%Q 1%Q (3 # 2)%Q 0 0.
End ResamplerInstances.


(** WAV set-ups.  The RIFF reader and the header layout are external to the
    engine; these stand-ins follow the usual container layout (a 12-byte
    RIFF header, then chunks of a 4-byte label, a 4-byte little-endian size
    and the payload; a 16-byte PCM format chunk). *)
Module WAVInstances.
Definition le_value (bs : list byte) : Z :=
  foldr (fun b acc => Z.of_N (Byte.to_N b) + 256 * acc) 0 bs.

Fixpoint find_chunk (fuel : nat) (label bytes : list byte) : list byte :=
  match fuel with
  | O => []
  | S fuel' =>
      if (length bytes <? 8)%nat then []
      else
        let sz := Z.to_nat (le_value (take 4 (drop 4 bytes))) in
        if decide (Byte.to_N <$> take 4 bytes = Byte.to_N <$> label)
        then take sz (drop 8 bytes)
        else find_chunk fuel' label (drop (8 + sz) bytes)
  end.

Definition GetChunk (array : list byte) (label : string) : list byte :=
  find_chunk (length array) (String.list_byte_of_string label) (drop 12 array).

Definition header_of (fmt : list byte) : WAV.WAVHeader :=
  WAV.mk_header (le_value (take 2 (drop 2 fmt)))
                (le_value (take 4 (drop 4 fmt)))
                (le_value (take 2 (drop 12 fmt)))
                (le_value (take 2 (drop 14 fmt))).

Definition riff_header : list byte :=
  String.list_byte_of_string "RIFF" ++ [x26; x00; x00; x00]
  ++ String.list_byte_of_string "WAVE".

(** 8-bit stereo at 44100 Hz, one frame: (64, -64). *)
Definition good_file : list byte :=
  riff_header
  ++ String.list_byte_of_string "fmt " ++ [x10; x00; x00; x00]
  ++ [x01; x00; x02; x00; x44; xac; x00; x00;
      x88; x58; x01; x00; x02; x00; x08; x00]
  ++ String.list_byte_of_string "data" ++ [x02; x00; x00; x00] ++ [x40; xc0].

(** The same file with a format chunk cut to 14 bytes. *)
Definition short_fmt_file : list byte :=
  riff_header
  ++ String.list_byte_of_string "fmt " ++ [x0e; x00; x00; x00]
  ++ [x01; x00; x02; x00; x44; xac; x00; x00;
      x88; x58; x01; x00; x02; x00]
  ++ String.list_byte_of_string "data" ++ [x02; x00; x00; x00] ++ [x40; xc0].

(** 8-bit stereo at 44100 Hz, three frames. *)
Definition three_frame_file : list byte :=
  riff_header
  ++ String.list_byte_of_string "fmt " ++ [x10; x00; x00; x00]
  ++ [x01; x00; x02; x00; x44; xac; x00; x00;
      x88; x58; x01; x00; x02; x00; x08; x00]
  ++ String.list_byte_of_string "data" ++ [x06; x00; x00; x00]
  ++ [x40; xc0; x20; xe0; x10; xf0].

(** A file system holding that file alone. *)
Definition open_file (path : string) : option (list byte) :=
  if decide (path = "three.wav") then Some three_frame_file else None.

Definition tick : Math_t := (1 # 44100)%Q.
Definition sqrt_half : Math_t := (7071 # 10000)%Q.

Definition ParseWAV : WAV.t -> list byte -> option (WAV.t * list string) :=
  WAV.ParseWAV tick sqrt_half 16 header_of GetChunk.
End WAVInstances.

(** * Properties *)

(** ** Dispatch table *)

Section MethodTableFacts.
Import MethodTable.
Context {World Args : Type}.
Implicit Types (tbl : gmap string (Void_fn World Args)).

Lemma CallMethod_unregistered tbl fn params w :
  tbl !! fn = None -> CallMethod tbl fn params w = Thrown out_of_range.
Proof. intros Hfn. unfold CallMethod, Void_fn in *. now rewrite Hfn. Qed.

Lemma CallMethod_registered tbl fn f params w :
  tbl !! fn = Some f -> CallMethod tbl fn params w = f params w.
Proof. intros Hfn. unfold CallMethod, Void_fn in *. now rewrite Hfn. Qed.

Lemma CallMethod_static_spec
    (s_Table : gmap positive (gmap string (Void_fn World Args)))
    this fn params w :
  CallMethod_static s_Table this fn params w
  = CallMethod (methods_of s_Table this) fn params w.
Proof.
  unfold CallMethod_static, CallMethod, methods_of, Void_fn in *.
  destruct (s_Table !! this) as [tbl|]; simpl; [reflexivity|].
  now rewrite lookup_empty.
Qed.
End MethodTableFacts.

(** C1.  In both generations of the dispatch table, calling a name that is
    not registered for the instance throws [out_of_range] to the caller and
    so never returns normally, and calling a registered name runs exactly the
    callable registered under it. *)
Theorem CallMethod_lookup {World Args : Type}
    (m_Table : gmap string (MethodTable.Void_fn World Args))
    (s_Table : gmap positive (gmap string (MethodTable.Void_fn World Args)))
    (this : positive) (fn : string) (params : Args) (w : World) :
  (m_Table !! fn = None ->
     MethodTable.CallMethod m_Table fn params w
       = MethodTable.Thrown MethodTable.out_of_range
     /\ forall w', MethodTable.CallMethod m_Table fn params w
                   <> MethodTable.Returned w')
  /\ (forall f, m_Table !! fn = Some f ->
        MethodTable.CallMethod m_Table fn params w = f params w)
  /\ (MethodTable.methods_of s_Table this !! fn = None ->
        MethodTable.CallMethod_static s_Table this fn params w
          = MethodTable.Thrown MethodTable.out_of_range
        /\ forall w', MethodTable.CallMethod_static s_Table this fn params w
                      <> MethodTable.Returned w')
  /\ (forall f, MethodTable.methods_of s_Table this !! fn = Some f ->
        MethodTable.CallMethod_static s_Table this fn params w = f params w).
Proof.
  repeat split.
  - now apply CallMethod_unregistered.
  - intros w' Hret. rewrite CallMethod_unregistered in Hret by assumption.
    discriminate.
  - intros f Hf. now apply CallMethod_registered.
  - rewrite CallMethod_static_spec. now apply CallMethod_unregistered.
  - intros w' Hret. rewrite CallMethod_static_spec in Hret.
    rewrite CallMethod_unregistered in Hret by assumption. discriminate.
  - intros f Hf. rewrite CallMethod_static_spec.
    now apply CallMethod_registered.
Qed.

Lemma CallMethod_lookup_witness :
  MethodTable.CallMethod Instances.sine_table "GetGain" 880%Q 440%Q
    = MethodTable.Thrown MethodTable.out_of_range
  /\ MethodTable.CallMethod Instances.sine_table "SetFrequency" 880%Q 440%Q
    = MethodTable.Returned 880%Q
  /\ MethodTable.CallMethod_static Instances.static_table 1 "GetGain" 880%Q 440%Q
    = MethodTable.Thrown MethodTable.out_of_range
  /\ MethodTable.CallMethod_static Instances.static_table 1 "SetFrequency" 880%Q 440%Q
    = MethodTable.Returned 880%Q.
Proof.
  destruct (CallMethod_lookup Instances.sine_table Instances.static_table 1
              "GetGain" 880%Q 440%Q) as (Hnew & _ & Hold & _).
  destruct (CallMethod_lookup Instances.sine_table Instances.static_table 1
              "SetFrequency" 880%Q 440%Q) as (_ & Hnew' & _ & Hold').
  split; [apply Hnew; reflexivity|].
  split; [apply (Hnew' (fun freq _ => MethodTable.Returned freq)); reflexivity|].
  split; [apply Hold; reflexivity|].
  apply (Hold' (fun freq _ => MethodTable.Returned freq)); reflexivity.
Defined.

(** ** Node combination *)

Section NodeFacts.
Import Node.
Context {Gen Mod : Type}.
Variable gen_SendSample : Gen -> StereoData * Gen.
Variable mod_FilterSample : Mod -> StereoData -> StereoData * Mod.
Implicit Types (n : Node.t (Gen:=Gen) (Mod:=Mod)) (σ : store) (c : cell).

Lemma write_all_lookup cs s σ c :
  write_all cs s σ !! c = if decide (c ∈ cs) then Some s else σ !! c.
Proof.
  unfold write_all, store, cell in *. revert σ.
  induction cs as [|x cs IH]; intros σ; cbn [foldl].
  - rewrite decide_False by apply not_elem_of_nil. reflexivity.
  - rewrite IH. destruct (decide (c ∈ cs)) as [Hin|Hnin].
    + now rewrite decide_True by (apply elem_of_cons; now right).
    + destruct (decide (c = x)) as [->|Hne].
      * rewrite decide_True by (apply elem_of_cons; now left).
        now rewrite lookup_insert_eq.
      * rewrite decide_False by (rewrite elem_of_cons; tauto).
        now rewrite lookup_insert_ne by congruence.
Qed.

Lemma read_write_all cs s σ c : c ∈ cs -> read (write_all cs s σ) c = s.
Proof.
  intros Hc. unfold read. rewrite write_all_lookup.
  now rewrite decide_True.
Qed.

Lemma m_Targets_AddOutputs n outs :
  m_Targets (AddOutputs n outs) = m_Targets n ++ outs.
Proof.
  unfold AddOutputs. revert n.
  induction outs as [|o outs IH]; intros n; simpl.
  - now rewrite app_nil_r.
  - rewrite IH. simpl. now rewrite <- app_assoc.
Qed.

Lemma AddOutputs_fields n outs :
  m_Generator (AddOutputs n outs) = m_Generator n
  /\ m_Modifier (AddOutputs n outs) = m_Modifier n
  /\ m_Interaction (AddOutputs n outs) = m_Interaction n
  /\ m_Input (AddOutputs n outs) = m_Input n.
Proof.
  unfold AddOutputs. revert n.
  induction outs as [|o outs IH]; intros n; simpl; [easy|].
  destruct (IH (AddOutput n o)) as (-> & -> & -> & ->). easy.
Qed.

(** What [SendSample] leaves in a downstream cell. *)
Lemma SendSample_writes n σ c :
  c ∈ m_Targets n ->
  read (snd (SendSample gen_SendSample mod_FilterSample n σ)) c
  = m_Interaction n
      (match m_Generator n with
       | Some G => fst (gen_SendSample G)
       | None => silence
       end)
      (match m_Modifier n with
       | Some M => fst (mod_FilterSample M (read σ (m_Input n)))
       | None => silence
       end).
Proof.
  intros Hc. unfold SendSample.
  destruct (m_Generator n) as [G|]; [destruct (gen_SendSample G)|];
    (destruct (m_Modifier n) as [M|];
     [destruct (mod_FilterSample M (read σ (m_Input n)))|]);
    simpl; now apply read_write_all.
Qed.
End NodeFacts.

(** C2.  With the default interaction, every downstream cell of a
    generator-only Node receives the generator's frame, of a modifier-only
    Node the modifier's output for the input cell, and of a Node with both
    the per-channel product of the two, whatever the frames are. *)
Theorem Node_default_combination {Gen Mod : Type}
    (gen_SendSample : Gen -> StereoData * Gen)
    (mod_FilterSample : Mod -> StereoData -> StereoData * Mod)
    (gen : Gen) (mod_ : Mod) (input : Node.cell) (outputs : list Node.cell)
    (σ : Node.store) (c : Node.cell) :
  c ∈ outputs ->
  let g := fst (gen_SendSample gen) in
  let m := fst (mod_FilterSample mod_ (Node.read σ input)) in
  let send n := snd (Node.SendSample gen_SendSample mod_FilterSample
                       (Node.AddOutputs n outputs) σ) in
  Node.read (send (Node.Node_gen gen input)) c = g
  /\ Node.read (send (Node.Node_mod mod_ input)) c = m
  /\ Node.read (send (Node.Node_gen_mod gen mod_ input)) c
     = ((Left g * Left m)%Q, (Right g * Right m)%Q).
Proof.
  intros Hc g m send. unfold send.
  repeat split.
  all: rewrite SendSample_writes
    by (rewrite m_Targets_AddOutputs; apply elem_of_app; now right).
  all: match goal with |- context [Node.AddOutputs ?n ?o] =>
         destruct (AddOutputs_fields n o) as (-> & -> & -> & ->) end.
  all: reflexivity.
Qed.

Lemma Node_default_combination_witness :
  let σ : Node.store := {[ 1%positive := ((-1 # 2)%Q, 0%Q) ]} in
  let send n := snd (Node.SendSample Instances.constant_generator
                       Instances.gain_modifier
                       (Node.AddOutputs n [2%positive; 3%positive]) σ) in
  Node.read (send (Node.Node_gen ((3 # 4)%Q, (-1)%Q) 1%positive)) 3%positive
    = ((3 # 4)%Q, (-1)%Q)
  /\ Node.read (send (Node.Node_mod 2%Q 1%positive)) 3%positive
    = ((-1 # 2) * 2, 0 * 2)%Q
  /\ Node.read (send (Node.Node_gen_mod ((3 # 4)%Q, (-1)%Q) 2%Q 1%positive))
       3%positive
    = ((3 # 4) * ((-1 # 2) * 2), (-1) * (0 * 2))%Q.
Proof.
  intros σ send.
  assert (Hc : 3%positive ∈ [2%positive; 3%positive])
    by (rewrite !elem_of_cons; auto).
  pose proof (Node_default_combination Instances.constant_generator
                Instances.gain_modifier ((3 # 4)%Q, (-1)%Q) 2%Q 1%positive
                [2%positive; 3%positive] σ 3%positive Hc) as W.
  vm_compute in W |- *. exact W.
Defined.

(** ** Echo *)

Section EchoFacts.
Import Echo.
Implicit Types (e : Echo.t) (dry wet out : StereoData).

Lemma FilterSample_cons e wet rest dry :
  m_Echo e = wet :: rest ->
  FilterSample e dry
  = Some (echo_out (m_Ratio e) wet dry,
          Echo.mk (rest ++ [echo_out (m_Ratio e) wet dry]) (m_Ratio e)).
Proof. intros Hq. unfold FilterSample. now rewrite Hq. Qed.

Lemma FilterSample_empty e dry : m_Echo e = [] -> FilterSample e dry = None.
Proof. intros Hq. unfold FilterSample. now rewrite Hq. Qed.

Lemma length_Echo D r : length (m_Echo (Echo D r)) = D.
Proof. simpl. apply length_replicate. Qed.

(** One call keeps the length of a non-empty queue. *)
Lemma FilterSample_length e dry :
  (1 <= length (m_Echo e))%nat ->
  exists wet rest out e',
    m_Echo e = wet :: rest
    /\ FilterSample e dry = Some (out, e')
    /\ m_Echo e' = rest ++ [out]
    /\ m_Ratio e' = m_Ratio e
    /\ length (m_Echo e') = length (m_Echo e).
Proof.
  intros Hlen. destruct (m_Echo e) as [|wet rest] eqn:Hq; [simpl in Hlen; lia|].
  exists wet, rest, (echo_out (m_Ratio e) wet dry),
    (Echo.mk (rest ++ [echo_out (m_Ratio e) wet dry]) (m_Ratio e)).
  split; [reflexivity|]. split; [now apply FilterSample_cons|].
  simpl. repeat split. rewrite length_app. simpl. lia.
Qed.

(** The outputs of a run, read as a stream: the [n]-th popped frame is the
    [n]-th element of the initial queue followed by the outputs. *)
Lemma FilterSamples_stream input : forall e,
  (1 <= length (m_Echo e))%nat ->
  exists output e',
    FilterSamples e input = Some (output, e')
    /\ length output = length input
    /\ length (m_Echo e') = length (m_Echo e)
    /\ m_Ratio e' = m_Ratio e
    /\ forall n dry, input !! n = Some dry ->
         exists wet, (m_Echo e ++ output) !! n = Some wet
                     /\ output !! n = Some (echo_out (m_Ratio e) wet dry).
Proof.
  induction input as [|dry0 input IH]; intros e Hlen.
  - exists [], e. repeat split. intros n dry Hn. discriminate.
  - destruct (FilterSample_length e dry0 Hlen)
      as (wet & rest & out & e1 & Hq & Hcall & Hq1 & Hr1 & Hlen1).
    destruct (IH e1) as (output & e2 & Hrun & Hlo & Hlen2 & Hr2 & Hstream);
      [lia|].
    exists (out :: output), e2. cbn [FilterSamples].
    rewrite Hcall. simpl. rewrite Hrun. simpl.
    repeat split; [now rewrite Hlo|congruence|congruence|].
    intros [|n] dry Hn.
    + simpl in Hn. injection Hn as <-. exists wet. rewrite Hq. simpl.
      split; [reflexivity|].
      rewrite (FilterSample_cons e wet rest dry0 Hq) in Hcall. congruence.
    + simpl in Hn. destruct (Hstream n dry Hn) as (w & Hw & Hout).
      exists w. rewrite Hq. simpl. split.
      * rewrite Hq1, <- app_assoc in Hw. exact Hw.
      * now rewrite Hout, Hr1.
Qed.

Lemma echo_out_silence ratio dry : echo_out ratio silence dry =s= dry.
Proof. destruct dry as [l r]. split; simpl; ring. Qed.
End EchoFacts.

(** C3.  For a delay [D >= 1] the calls never fail; one call pops the oldest
    frame [wet], returns [wet * r + dry] and pushes it at the tail; and over a
    run, output [n] is input [n] for [n < D] and input [n] plus [r] times
    output [n - D] for [n >= D], on each channel. *)
Theorem Echo_recurrence (D : nat) (r : Math_t) (input : list StereoData) :
  (1 <= D)%nat ->
  (forall e wet rest dry,
     Echo.m_Echo e = wet :: rest ->
     Echo.FilterSample e dry
     = Some (Echo.echo_out (Echo.m_Ratio e) wet dry,
             Echo.mk (rest ++ [Echo.echo_out (Echo.m_Ratio e) wet dry])
                     (Echo.m_Ratio e)))
  /\ exists output e',
       Echo.FilterSamples (Echo.Echo D r) input = Some (output, e')
       /\ length output = length input
       /\ forall n dry, input !! n = Some dry ->
            exists out,
              output !! n = Some out
              /\ ((n < D)%nat -> out =s= dry)
              /\ ((D <= n)%nat ->
                  exists prev,
                    output !! (n - D)%nat = Some prev
                    /\ out =s= ((Left dry + r * Left prev)%Q,
                                (Right dry + r * Right prev)%Q)).
Proof.
  intros HD. split; [intros; now apply FilterSample_cons|].
  destruct (FilterSamples_stream input (Echo.Echo D r))
    as (output & e' & Hrun & Hlen & _ & _ & Hstream);
    [rewrite length_Echo; lia|].
  exists output, e'. repeat split; try assumption.
  intros n dry Hn. destruct (Hstream n dry Hn) as (wet & Hwet & Hout).
  exists (Echo.echo_out r wet dry). split; [exact Hout|]. simpl in Hwet. split.
  - intros Hlt. rewrite lookup_app_l in Hwet by (rewrite length_replicate; lia).
    apply lookup_replicate in Hwet as [-> _]. apply echo_out_silence.
  - intros Hge. rewrite lookup_app_r in Hwet by (rewrite length_replicate; lia).
    rewrite length_replicate in Hwet. exists wet. split; [exact Hwet|].
    destruct wet, dry. split; simpl; ring.
Qed.

Lemma Echo_recurrence_witness :
  exists output e',
    Echo.FilterSamples (Echo.Echo 2 (1 # 2)) [(1, -1); (0, 0); (-4, 2); (0, 8)]%Q
    = Some (output, e')
    /\ length output = 4%nat.
Proof.
  destruct (Echo_recurrence 2 (1 # 2) [(1, -1); (0, 0); (-4, 2); (0, 8)]%Q)
    as (_ & output & e' & Hrun & Hlen & _); [lia|].
  exists output, e'. split; assumption.
Defined.

(** C10.  For [D >= 1] the constructor builds a queue of length [D], every
    call on a queue of length [D] succeeds, removes the head, appends one
    frame at the tail and leaves the length [D], so that the length is [D]
    after every run; with [D = 0] the first call finds the queue empty. *)
Theorem Echo_queue_length (D : nat) (r : Math_t) :
  ((1 <= D)%nat ->
     length (Echo.m_Echo (Echo.Echo D r)) = D
     /\ (forall e dry,
           length (Echo.m_Echo e) = D ->
           exists wet rest out e',
             Echo.m_Echo e = wet :: rest
             /\ Echo.FilterSample e dry = Some (out, e')
             /\ Echo.m_Echo e' = rest ++ [out]
             /\ length (Echo.m_Echo e') = D)
     /\ (forall input,
           exists output e',
             Echo.FilterSamples (Echo.Echo D r) input = Some (output, e')
             /\ length (Echo.m_Echo e') = D))
  /\ (forall dry, Echo.FilterSample (Echo.Echo 0 r) dry = None).
Proof.
  split.
  - intros HD. split; [apply length_Echo|]. split.
    + intros e dry Hlen.
      destruct (FilterSample_length e dry)
        as (wet & rest & out & e' & Hq & Hcall & Hq' & _ & Hlen'); [lia|].
      exists wet, rest, out, e'. repeat split; congruence.
    + intros input.
      destruct (FilterSamples_stream input (Echo.Echo D r))
        as (output & e' & Hrun & _ & Hlen & _); [rewrite length_Echo; lia|].
      exists output, e'. split; [exact Hrun|]. now rewrite Hlen, length_Echo.
  - intros dry. now apply FilterSample_empty.
Qed.

Lemma Echo_queue_length_witness :
  length (Echo.m_Echo (Echo.Echo 3 (1 # 2))) = 3%nat
  /\ exists output e',
       Echo.FilterSamples (Echo.Echo 3 (1 # 2)) [(1, 1); (2, 2)]%Q
       = Some (output, e')
       /\ length (Echo.m_Echo e') = 3%nat.
Proof.
  destruct (Echo_queue_length 3 (1 # 2)) as [Hpos _].
  destruct Hpos as (Hlen & _ & Hrun); [lia|].
  split; [exact Hlen|]. apply Hrun.
Defined.

(** ** Resampler *)

Section ConversionFacts.
Lemma Qtrunc_inject_Z (q : Q) (k : Z) : (q == inject_Z k)%Q -> Qtrunc q = k.
Proof.
  destruct q as [a d]. unfold Qeq, Qtrunc, inject_Z. simpl. intros Heq.
  rewrite Z.mul_1_r in Heq. subst a. apply Z.quot_mul. discriminate.
Qed.

Lemma to_u64_inject_Z (q : Q) (k : Z) :
  (q == inject_Z k)%Q -> 0 <= k < two64 -> to_u64 q = Some k.
Proof.
  intros Heq [Hlo Hhi]. unfold to_u64. rewrite (Qtrunc_inject_Z q k Heq).
  apply Z.leb_le in Hlo. apply Z.ltb_lt in Hhi. now rewrite Hlo, Hhi.
Qed.

Lemma wrap64_small (z : Z) : 0 <= z < two64 -> wrap64 z = z.
Proof. intros Hz. unfold wrap64. now apply Z.mod_small. Qed.
End ConversionFacts.

Section ResamplerFacts.
Import Resampler.
Implicit Types (r : Resampler.t).

(** The terminal state: one call returns silence and changes nothing. *)
Lemma Process_terminal r k :
  m_LoopEnd r = 0 -> to_u64 (m_Index r) = Some k -> size r <= k ->
  Process r = Some (silence, r).
Proof.
  intros Hloop Hidx Hsize. unfold Process. rewrite Hidx. simpl.
  apply Z.leb_le in Hsize. rewrite Hsize, Hloop. reflexivity.
Qed.

(** Outside the terminal branch, one call moves the cursor to [advance]. *)
Lemma Process_advances r s r' :
  Process r = Some (s, r') ->
  r' = r \/
  r' = Resampler.mk (m_Data r) (advance r) (m_IndexIncrement r)
         (m_PlaybackSpeed r) (m_LoopStart r) (m_LoopEnd r).
Proof.
  unfold Process. intros Hcall.
  destruct (to_u64 (m_Index r)) as [idx|]; simpl in Hcall; [|discriminate].
  destruct ((size r <=? idx) && (m_LoopEnd r =? 0)).
  - left. congruence.
  - destruct (next_point r idx); simpl in Hcall; [|discriminate].
    destruct (elem (m_Data r) idx); simpl in Hcall; [|discriminate].
    right. congruence.
Qed.

Lemma Process_looping_advances r s r' :
  m_LoopEnd r <> 0 -> Process r = Some (s, r') ->
  r' = Resampler.mk (m_Data r) (advance r) (m_IndexIncrement r)
         (m_PlaybackSpeed r) (m_LoopStart r) (m_LoopEnd r).
Proof.
  unfold Process. intros Hloop Hcall.
  destruct (to_u64 (m_Index r)) as [idx|]; simpl in Hcall; [|discriminate].
  apply Z.eqb_neq in Hloop. rewrite Hloop, andb_false_r in Hcall.
  destruct (next_point r idx); simpl in Hcall; [|discriminate].
  destruct (elem (m_Data r) idx); simpl in Hcall; [|discriminate].
  congruence.
Qed.

(** The wrapped cursor, for a well-formed loop window. *)
Lemma advance_wraps r :
  0 <= m_LoopStart r <= m_LoopEnd r -> m_LoopEnd r < two64 ->
  m_LoopEnd r <> 0 ->
  (inject_Z (m_LoopEnd r)
     <= m_Index r + m_IndexIncrement r * m_PlaybackSpeed r)%Q ->
  (advance r == m_Index r + m_IndexIncrement r * m_PlaybackSpeed r
                - (inject_Z (m_LoopEnd r) - inject_Z (m_LoopStart r)))%Q
  /\ (inject_Z (m_LoopStart r) <= advance r)%Q.
Proof.
  intros Hwin Hhi Hloop Hreach. unfold advance, loop_length.
  apply Qle_bool_iff in Hreach. rewrite Hreach.
  apply Z.eqb_neq in Hloop. rewrite Hloop. simpl.
  rewrite wrap64_small by lia.
  unfold Z.sub. rewrite inject_Z_plus, inject_Z_opp.
  apply Qle_bool_iff in Hreach. split; lra.
Qed.

Lemma advance_nonneg r :
  (0 <= m_Index r)%Q -> (0 <= m_IndexIncrement r)%Q ->
  (0 <= m_PlaybackSpeed r)%Q ->
  0 <= m_LoopStart r <= m_LoopEnd r -> m_LoopEnd r < two64 ->
  (0 <= advance r)%Q.
Proof.
  intros Hidx Hinc Hspeed Hwin Hhi.
  assert (Hstep : (0 <= m_IndexIncrement r * m_PlaybackSpeed r)%Q)
    by now apply Qmult_le_0_compat.
  destruct (Qle_bool (inject_Z (m_LoopEnd r))
              (m_Index r + m_IndexIncrement r * m_PlaybackSpeed r)
            && negb (m_LoopEnd r =? 0)) eqn:Hwrap.
  - apply andb_true_iff in Hwrap as [Hreach Hloop].
    apply Qle_bool_iff in Hreach. apply negb_true_iff, Z.eqb_neq in Hloop.
    destruct (advance_wraps r Hwin Hhi Hloop Hreach) as [_ Hge].
    assert (0 <= inject_Z (m_LoopStart r))%Q
      by (rewrite <- (Zle_Qle 0); lia).
    lra.
  - unfold advance. rewrite Hwrap. lra.
Qed.

Lemma do_call_forward r c r' :
  forward r -> nonneg_speed c -> do_call r c = Some r' -> forward r'.
Proof.
  intros (Hidx & Hinc & Hspeed & Hwin & Hhi) Hc Hcall.
  destruct c as [|p]; simpl in *.
  - destruct (Process r) as [[s r1]|] eqn:Hp; simpl in Hcall; [|discriminate].
    injection Hcall as <-.
    destruct (Process_advances r s r1 Hp) as [->| ->]; [easy|].
    repeat split; simpl; try easy. now apply advance_nonneg.
  - injection Hcall as <-. repeat split; simpl; easy.
Qed.

Lemma do_calls_forward cs : forall r r',
  forward r -> Forall nonneg_speed cs -> do_calls r cs = Some r' ->
  forward r'.
Proof.
  induction cs as [|c cs IH]; intros r r' Hr Hcs Hrun; simpl in Hrun.
  - congruence.
  - apply Forall_cons in Hcs as [Hc Hcs].
    destruct (do_call r c) as [r1|] eqn:Hcall; simpl in Hrun; [|discriminate].
    apply (IH r1 r'); [|exact Hcs|exact Hrun].
    exact (do_call_forward r c r1 Hr Hc Hcall).
Qed.
End ResamplerFacts.

(** C4, as the code has it.  Without a loop ([m_LoopEnd = 0]), once the
    integer part of the cursor, as the conversion [size_t(m_Index)] gives it
    for a cursor below 2^64, is at or past the end of the buffer, every
    further call of [Process] returns the silent frame and leaves the whole
    state, cursor included, unchanged, whatever the playback speed. *)
Theorem Process_past_end_silent (r : Resampler.t) (k : Z) (n : nat) :
  Resampler.m_LoopEnd r = 0 ->
  to_u64 (Resampler.m_Index r) = Some k ->
  Resampler.size r <= k ->
  Resampler.Process_n n r = Some (replicate n silence, r).
Proof.
  intros Hloop Hidx Hsize. induction n as [|n IH]; [reflexivity|].
  cbn [Resampler.Process_n].
  rewrite (Process_terminal r k Hloop Hidx Hsize). simpl.
  rewrite IH. reflexivity.
Qed.

Lemma Process_past_end_silent_witness :
  Resampler.Process_n 3 ResamplerInstances.finished
  = Some ([silence; silence; silence], ResamplerInstances.finished).
Proof.
  apply (Process_past_end_silent ResamplerInstances.finished 4 3);
    [reflexivity | reflexivity | vm_compute; discriminate].
Defined.

(** C4 as stated fails for a cursor that [size_t] cannot hold: a playback
    speed of 2^64 takes the cursor of a fresh player without a loop to 2^64
    in one call, at or past the end of the buffer, and the next call, whose
    first step is the conversion [size_t(m_Index)], is undefined instead of
    returning the silent frame. *)
Lemma Process_past_end_unrepresentable_cursor :
  exists r',
    Resampler.do_calls ResamplerInstances.one_shot
      [Resampler.CallSetPlaybackSpeed (inject_Z two64); Resampler.CallProcess]
    = Some r'
    /\ Resampler.m_LoopEnd r' = 0
    /\ (inject_Z (Resampler.size r') <= Resampler.m_Index r')%Q
    /\ (Resampler.m_Index r' == inject_Z two64)%Q
    /\ Resampler.Process r' = None
    /\ Resampler.Process r' <> Some (silence, r').
Proof.
  eexists. split; [vm_compute; reflexivity|].
  split; [reflexivity|].
  split; [vm_compute; discriminate|].
  split; [vm_compute; reflexivity|].
  split; [vm_compute; reflexivity|].
  vm_compute. discriminate.
Qed.

Section ResamplerIdentity.
Import Resampler.
Implicit Types (r : Resampler.t).

Lemma Process_unit_step r (k : nat) s :
  unit_step r k -> m_Data r !! k = Some s ->
  exists out r',
    Process r = Some (out, r') /\ out =s= s
    /\ m_Data r' = m_Data r /\ unit_step r' (S k).
Proof.
  intros (Hloop & Hidx & Hstep & Hsize) Hs.
  pose proof (lookup_lt_Some _ _ _ Hs) as Hk. unfold size in Hsize.
  assert (Hto : to_u64 (m_Index r) = Some (Z.of_nat k))
    by (apply to_u64_inject_Z; [exact Hidx | lia]).
  assert (Hp1 : exists p1, next_point r (Z.of_nat k) = Some p1).
  { unfold next_point. rewrite Hloop. simpl. rewrite andb_false_r.
    rewrite wrap64_small by (unfold size; lia).
    destruct (size r <=? Z.of_nat k + 1) eqn:Hlast; unfold elem.
    - exists s. now rewrite Nat2Z.id.
    - apply Z.leb_gt in Hlast. unfold size in Hlast.
      apply lookup_lt_is_Some_2. lia. }
  destruct Hp1 as [p1 Hp1].
  assert (Hx1 : elem (m_Data r) (Z.of_nat k) = Some s)
    by (unfold elem; now rewrite Nat2Z.id).
  assert (Hin : (size r <=? Z.of_nat k) = false)
    by (apply Z.leb_gt; unfold size; lia).
  unfold Process. rewrite Hto. simpl. rewrite Hin. simpl.
  rewrite Hp1. simpl. rewrite Hx1. simpl.
  eexists _, _. split; [reflexivity|].
  assert (Hfrac : (m_Index r - inject_Z (Z.of_nat k) == 0)%Q)
    by (rewrite Hidx; ring).
  split.
  - split; simpl; rewrite Hfrac; ring.
  - split; [reflexivity|]. repeat split; simpl; try assumption.
    unfold advance. rewrite Hloop. simpl. rewrite andb_false_r.
    rewrite Nat2Z.inj_succ, <- Z.add_1_r, inject_Z_plus.
    rewrite Hidx, Hstep. reflexivity.
Qed.

Lemma Process_n_unit_step n : forall r k,
  unit_step r k -> (k + n <= length (m_Data r))%nat ->
  exists out r',
    Process_n n r = Some (out, r')
    /\ Forall2 StereoData_eq out (take n (drop k (m_Data r)))
    /\ unit_step r' (k + n).
Proof.
  induction n as [|n IH]; intros r k Hr Hlen.
  - exists [], r. rewrite Nat.add_0_r. repeat split; try apply Hr.
    simpl. constructor.
  - destruct (lookup_lt_is_Some_2 (m_Data r) k) as [s Hs]; [lia|].
    destruct (Process_unit_step r k s Hr Hs)
      as (o & r1 & Hcall & Ho & Hdata & Hr1).
    destruct (IH r1 (S k) Hr1) as (out & r2 & Hrun & Hout & Hr2);
      [rewrite Hdata; lia|].
    exists (o :: out), r2. cbn [Process_n]. rewrite Hcall. simpl.
    rewrite Hrun. simpl. split; [reflexivity|].
    rewrite (drop_S _ _ _ Hs). simpl. split.
    + constructor; [exact Ho|]. now rewrite <- Hdata.
    + now rewrite <- Nat.add_succ_comm.
Qed.
End ResamplerIdentity.

(** C5.  A Resampler built over a buffer with a per-call increment of exactly
    one frame (source rate times tick duration equal to 1), at the initial
    playback speed 1 and without a loop, returns on its first [n] calls the
    first [n] frames of the buffer, for every [n] up to the buffer length,
    and its cursor stays on the integers (the interpolation fraction is 0). *)
Theorem Resampler_identity (OCAE_INC_RATE : Math_t)
    (AudioData : list StereoData) (SourceSampleRate LoopStart : Z) (n : nat) :
  (inject_Z SourceSampleRate * OCAE_INC_RATE == 1)%Q ->
  Z.of_nat (length AudioData) < two64 ->
  (n <= length AudioData)%nat ->
  exists out r',
    Resampler.Process_n n
      (Resampler.Resampler OCAE_INC_RATE AudioData SourceSampleRate LoopStart 0)
    = Some (out, r')
    /\ Forall2 StereoData_eq out (take n AudioData)
    /\ (Resampler.m_Index r' == inject_Z (Z.of_nat n))%Q.
Proof.
  intros Hrate Hsize Hn.
  destruct (Process_n_unit_step n
              (Resampler.Resampler OCAE_INC_RATE AudioData SourceSampleRate
                 LoopStart 0) 0)
    as (out & r' & Hrun & Hout & Hr'); [|exact Hn|].
  - repeat split; simpl; try reflexivity; try assumption.
    rewrite Hrate. reflexivity.
  - exists out, r'. split; [exact Hrun|]. split; [exact Hout|]. apply Hr'.
Qed.

Lemma Resampler_identity_witness :
  exists out r',
    Resampler.Process_n 4 ResamplerInstances.one_shot = Some (out, r')
    /\ Forall2 StereoData_eq out ResamplerInstances.ramp
    /\ (Resampler.m_Index r' == 4)%Q.
Proof.
  apply (Resampler_identity ResamplerInstances.tick ResamplerInstances.ramp
           44100 0 4);
    [reflexivity | reflexivity | simpl; lia].
Defined.

(** C6, as the code has it.  In forward playback (cursor, increment and every
    playback speed not negative, loop bounds in order) the cursor is not
    negative after any sequence of [Process] and [SetPlaybackSpeed] calls;
    and with a loop configured a [Process] call always advances, and when the
    advanced cursor reaches [m_LoopEnd] it is moved back by the window length
    once, which leaves it at or after [m_LoopStart]. *)
Theorem cursor_nonneg_forward (r : Resampler.t) (cs : list Resampler.call)
    (r' : Resampler.t) :
  Resampler.forward r ->
  Forall Resampler.nonneg_speed cs ->
  Resampler.do_calls r cs = Some r' ->
  (0 <= Resampler.m_Index r')%Q
  /\ forall s r1,
       Resampler.m_LoopEnd r' <> 0 ->
       Resampler.Process r' = Some (s, r1) ->
       Resampler.m_Index r1 = Resampler.advance r'
       /\ ((inject_Z (Resampler.m_LoopEnd r')
              <= Resampler.m_Index r'
                 + Resampler.m_IndexIncrement r' * Resampler.m_PlaybackSpeed r')%Q ->
           (Resampler.m_Index r1
              == Resampler.m_Index r'
                 + Resampler.m_IndexIncrement r' * Resampler.m_PlaybackSpeed r'
                 - (inject_Z (Resampler.m_LoopEnd r')
                    - inject_Z (Resampler.m_LoopStart r')))%Q
           /\ (inject_Z (Resampler.m_LoopStart r') <= Resampler.m_Index r1)%Q).
Proof.
  intros Hr Hcs Hrun.
  pose proof (do_calls_forward cs r r' Hr Hcs Hrun)
    as (Hidx & Hinc & Hspeed & Hwin & Hhi).
  split; [exact Hidx|].
  intros s r1 Hloop Hcall.
  rewrite (Process_looping_advances r' s r1 Hloop Hcall). simpl.
  split; [reflexivity|]. intros Hreach.
  now apply advance_wraps.
Qed.

Lemma cursor_nonneg_forward_witness :
  exists r',
    Resampler.do_calls ResamplerInstances.looping
      [Resampler.CallProcess; Resampler.CallSetPlaybackSpeed 2;
       Resampler.CallProcess; Resampler.CallProcess] = Some r'
    /\ (0 <= Resampler.m_Index r')%Q.
Proof.
  destruct (Resampler.do_calls ResamplerInstances.looping
              [Resampler.CallProcess; Resampler.CallSetPlaybackSpeed 2;
               Resampler.CallProcess; Resampler.CallProcess])
    as [r'|] eqn:Hrun; [|vm_compute in Hrun; discriminate].
  exists r'. split; [reflexivity|].
  apply (cursor_nonneg_forward ResamplerInstances.looping
           [Resampler.CallProcess; Resampler.CallSetPlaybackSpeed 2;
            Resampler.CallProcess; Resampler.CallProcess] r').
  - unfold Resampler.forward. simpl.
    repeat split; try lia; vm_compute; discriminate.
  - repeat constructor. simpl. vm_compute. discriminate.
  - exact Hrun.
Defined.

(** C6 as stated fails: after the playback speed is set to -1, one [Process]
    call on a fresh player moves the cursor from 0 to -1. *)
Lemma cursor_negative_in_reverse :
  exists r',
    Resampler.do_calls ResamplerInstances.one_shot
      [Resampler.CallSetPlaybackSpeed (-1); Resampler.CallProcess] = Some r'
    /\ (Resampler.m_Index r' < 0)%Q.
Proof.
  eexists. split; [vm_compute; reflexivity|]. vm_compute. reflexivity.
Qed.

(** The order of the loop bounds matters as well: the window length is an
    unsigned difference, and with the bounds inverted it wraps to almost
    2^64, which the first wrapping call subtracts from the cursor. *)
Lemma cursor_negative_with_inverted_window :
  exists r',
    Resampler.do_calls ResamplerInstances.inverted [Resampler.CallProcess]
    = Some r'
    /\ (Resampler.m_Index r' < 0)%Q.
Proof.
  eexists. split; [vm_compute; reflexivity|]. vm_compute. reflexivity.
Qed.

(** ** Triangle oscillator *)

Section TriangleFacts.
Import Triangle.
Implicit Types (g : Triangle.t).

Lemma Qle_bool_false (a b : Q) : Qle_bool a b = false -> (b < a)%Q.
Proof.
  intros Hf. apply Qnot_le_lt. intros Hle.
  apply Qle_bool_iff in Hle. congruence.
Qed.

Lemma SendSample_bounded g :
  bounded g ->
  in_range (fst (SendSample g)) /\ bounded (snd (SendSample g)).
Proof.
  intros [Hrate Hinc]. unfold SendSample, in_range, bounded, MONO_TO_STEREO.
  destruct (Qle_bool 1 (m_Inc g + m_Irate g)) eqn:Hhi; simpl.
  - apply Qle_bool_iff in Hhi. repeat split; lra.
  - apply Qle_bool_false in Hhi.
    destruct (Qle_bool (m_Inc g + m_Irate g) (-1)) eqn:Hlo; simpl.
    + apply Qle_bool_iff in Hlo. repeat split; lra.
    + apply Qle_bool_false in Hlo. repeat split; lra.
Qed.

Lemma SendSamples_bounded n : forall g,
  bounded g ->
  Forall in_range (fst (SendSamples n g)) /\ bounded (snd (SendSamples n g)).
Proof.
  induction n as [|n IH]; intros g Hg; simpl.
  - split; [constructor | exact Hg].
  - destruct (SendSample_bounded g Hg) as [Hs Hg1].
    destruct (SendSample g) as [s g1]. simpl in Hs, Hg1.
    destruct (IH g1 Hg1) as [Hss Hg2].
    destruct (SendSamples n g1) as [ss g2]. simpl in *.
    split; [constructor; assumption | exact Hg2].
Qed.

Lemma Triangle_bounded INC_RATE freq :
  (-2 <= 4 * freq * INC_RATE <= 2)%Q -> bounded (Triangle INC_RATE freq).
Proof. intros Hf. unfold bounded, Triangle. simpl. split; lra. Qed.

Lemma SetFrequency_bounded INC_RATE g freq :
  (-2 <= 4 * freq * INC_RATE <= 2)%Q -> bounded g ->
  bounded (SetFrequency INC_RATE g freq).
Proof.
  intros Hf [_ Hinc]. unfold bounded, SetFrequency.
  destruct (negb (Qle_bool 0 (m_Irate g))); simpl; split; lra.
Qed.
End TriangleFacts.

(** C7, as the code has it.  For a frequency up to half the tick rate
    ([|4 f tickDuration| <= 2]) the constructed oscillator, and every state
    reached from it by [SendSample] and by [SetFrequency] with such a
    frequency, keeps its phase within [-1, 1], so every frame [SendSample]
    returns lies within [-1, 1] on both channels. *)
Theorem Triangle_in_range (INC_RATE freq : Math_t) :
  (-2 <= 4 * freq * INC_RATE <= 2)%Q ->
  Triangle.bounded (Triangle.Triangle INC_RATE freq)
  /\ forall g,
       Triangle.bounded g ->
       Triangle.bounded (Triangle.SetFrequency INC_RATE g freq)
       /\ forall n,
            Forall Triangle.in_range (fst (Triangle.SendSamples n g))
            /\ Triangle.bounded (snd (Triangle.SendSamples n g)).
Proof.
  intros Hf. split; [now apply Triangle_bounded|].
  intros g Hg. split; [now apply SetFrequency_bounded|].
  intros n. now apply SendSamples_bounded.
Qed.

Lemma Triangle_in_range_witness :
  Forall Triangle.in_range
    (fst (Triangle.SendSamples 6 (Triangle.Triangle (1 # 44100) 11025))).
Proof.
  destruct (Triangle_in_range (1 # 44100) 11025) as [Hinit Hstep].
  - split; vm_compute; discriminate.
  - apply (Hstep _ Hinit).
Defined.

(** C7 as stated fails: at five quarters of the tick rate the phase moves by
    5 per call, and the first frame is (-3, -3). *)
Lemma Triangle_above_nyquist_out_of_range :
  fst (Triangle.SendSample (Triangle.Triangle (1 # 44100) 55125))
    =s= ((-3)%Q, (-3)%Q)
  /\ ~ Triangle.in_range
         (fst (Triangle.SendSample (Triangle.Triangle (1 # 44100) 55125))).
Proof.
  split.
  - split; vm_compute; reflexivity.
  - intros [[Hlo _] _]. vm_compute in Hlo. apply Hlo. reflexivity.
Qed.

(** ** Vocoder offset *)

Section VocoderFacts.
Import Vocoder.

(** The loop of [SetOffset] gives the node at position [i] the table entry
    at [counter + i + 1]: the counter is incremented before it is used. *)
Lemma set_carriers_lookup mu layer : forall counter layer' i n',
  set_carriers mu counter layer = Some layer' ->
  layer' !! i = Some n' ->
  exists f, freq !! (counter + i + 1)%nat = Some f
            /\ GetGenerator n' = Some (Carrier (f * mu)%Q).
Proof.
  induction layer as [|n layer IH]; intros counter layer' i n' Hset Hi;
    cbn [set_carriers] in Hset.
  - injection Hset as <-. discriminate.
  - destruct (freq !! S counter) as [f|] eqn:Hf; simpl in Hset; [|discriminate].
    destruct (GetGenerator n) as [[b|f0]|]; simpl in Hset; try discriminate.
    destruct (set_carriers mu (S counter) layer) as [rest|] eqn:Hrest;
      simpl in Hset; [|discriminate].
    injection Hset as <-. destruct i as [|i]; simpl in Hi.
    + injection Hi as <-. exists f. simpl. split; [|reflexivity].
      replace (counter + 0 + 1)%nat with (S counter) by lia. exact Hf.
    + destruct (IH (S counter) rest i n' Hrest Hi) as (f' & Hf' & Hgen).
      exists f'. split; [|exact Hgen].
      replace (counter + S i + 1)%nat with (S counter + i + 1)%nat by lia.
      exact Hf'.
Qed.
End VocoderFacts.

(** C8 on the code.  A two-band vocoder is built with the carriers at 220 and
    440 Hz; [SetOffset p] then sets them to 440 and 660 Hz times
    [2^(p/1200)], the table entries one place further, and not to their own
    base frequencies times that factor.  With all four bands the last read
    falls outside the table. *)
Theorem SetOffset_uses_next_table_entry
    (powf : Math_t -> Math_t -> Math_t) (base_input : Vocoder.node)
    (p : Math_t) :
  Vocoder.carrier_frequencies <$> Vocoder.Vocoder base_input 2
    = Some [Some (220 * 1)%Q; Some (440 * 1)%Q]
  /\ Vocoder.carrier_frequencies
       <$> (Vocoder.Vocoder base_input 2
              ≫= fun v => Vocoder.SetOffset powf v p)
     = Some [Some (440 * powf 2 (p / 1200))%Q; Some (660 * powf 2 (p / 1200))%Q]
  /\ (Vocoder.Vocoder base_input 4 ≫= fun v => Vocoder.SetOffset powf v p)
     = None.
Proof. repeat split; vm_compute; reflexivity. Qed.

(** ** WAV loading *)

Section WAVFacts.
Import WAV.

(** The decoding loop never runs out of fuel: with at least one byte per
    sample, any fuel from the length of the data on gives the same result. *)
Lemma decode_enough_fuel OCAE_SQRT_HALF h fuel1 : forall fuel2 data,
  1 <= BytesPerSample h ->
  (length data <= fuel1)%nat -> (length data <= fuel2)%nat ->
  decode OCAE_SQRT_HALF fuel1 h data = decode OCAE_SQRT_HALF fuel2 h data.
Proof.
  induction fuel1 as [|fuel1 IH]; intros fuel2 data Hbytes H1 H2.
  - destruct data; [|simpl in H1; lia]. now destruct fuel2.
  - destruct data as [|b data]; [now destruct fuel2|].
    destruct fuel2 as [|fuel2]; [simpl in H2; lia|].
    cbn [decode]. destruct (decode_sample OCAE_SQRT_HALF h (b :: data));
      [|reflexivity].
    simpl. rewrite (IH fuel2); [reflexivity|exact Hbytes|..];
      rewrite length_drop; simpl in *; lia.
Qed.

Lemma Process_unset g : m_Resampler g = None -> Process g = Some (silence, g).
Proof. intros Hg. unfold Process. now rewrite Hg. Qed.

Lemma Process_n_unset n g :
  m_Resampler g = None -> Process_n n g = Some (replicate n silence, g).
Proof.
  intros Hg. induction n as [|n IH]; [reflexivity|].
  cbn [Process_n]. rewrite (Process_unset g Hg). simpl.
  rewrite IH. reflexivity.
Qed.
End WAVFacts.

(** C9, as the code has it.  On a format chunk of the wrong size [ParseWAV]
    reports the error and returns with the generator unchanged; a generator
    whose resampler was unset before the call, as every constructor leaves
    it, therefore still has none, and each later call of [Process] returns
    the silent frame. *)
Theorem ParseWAV_malformed_header
    (OCAE_INC_RATE OCAE_SQRT_HALF : Math_t) (sizeof_WAVHeader : nat)
    (header_of : list byte -> WAV.WAVHeader)
    (GetChunk : list byte -> string -> list byte)
    (g : WAV.t) (array : list byte) (n : nat) :
  length (GetChunk array "fmt ") <> sizeof_WAVHeader ->
  WAV.ParseWAV OCAE_INC_RATE OCAE_SQRT_HALF sizeof_WAVHeader header_of GetChunk
    g array = Some (g, [WAV.malformed_header])
  /\ (WAV.m_Resampler g = None ->
      WAV.Process_n n g = Some (replicate n silence, g)).
Proof.
  intros Hsize. split.
  - unfold WAV.ParseWAV. apply Nat.eqb_neq in Hsize. now rewrite Hsize.
  - apply Process_n_unset.
Qed.

Lemma ParseWAV_malformed_header_witness :
  WAVInstances.ParseWAV WAV.WAV WAVInstances.short_fmt_file
    = Some (WAV.WAV, [WAV.malformed_header])
  /\ WAV.Process_n 3 WAV.WAV = Some ([silence; silence; silence], WAV.WAV).
Proof.
  destruct (ParseWAV_malformed_header WAVInstances.tick WAVInstances.sqrt_half
              16 WAVInstances.header_of WAVInstances.GetChunk WAV.WAV
              WAVInstances.short_fmt_file 3) as [Hparse Hsilent].
  - vm_compute. discriminate.
  - split; [exact Hparse | apply Hsilent; reflexivity].
Defined.

(** C9 as stated fails for a generator that has loaded a file before: the
    malformed second file leaves the earlier resampler in place, and
    [Process] keeps playing the earlier data. *)
Lemma ParseWAV_malformed_after_load :
  exists g s g',
    WAVInstances.ParseWAV WAV.WAV WAVInstances.good_file = Some (g, [])
    /\ length (WAVInstances.GetChunk WAVInstances.short_fmt_file "fmt ") <> 16%nat
    /\ WAVInstances.ParseWAV g WAVInstances.short_fmt_file
       = Some (g, [WAV.malformed_header])
    /\ WAV.m_Resampler g <> None
    /\ WAV.Process g = Some (s, g')
    /\ s =s= ((1 # 2)%Q, (-1 # 2)%Q)
    /\ ~ s =s= silence.
Proof.
  eexists _, _, _.
  split; [vm_compute; reflexivity|].
  split; [vm_compute; discriminate|].
  split; [vm_compute; reflexivity|].
  split; [discriminate|].
  split; [vm_compute; reflexivity|].
  split; [split; vm_compute; reflexivity|].
  intros [Hl _]. vm_compute in Hl. discriminate.
Qed.

(** * Further properties of the code *)

(** ** Echo: pass-through *)

Section EchoMore.
Import Echo.
Implicit Types (e : Echo.t) (dry wet out : StereoData).

Lemma echo_out_zero_ratio ratio wet dry :
  (ratio == 0)%Q -> echo_out ratio wet dry =s= dry.
Proof.
  intros Hr. destruct wet, dry. split; simpl; rewrite Hr; ring.
Qed.

End EchoMore.

(** X1.  An echo whose decay ratio is 0 passes every input frame through
    unchanged. *)
Theorem Echo_zero_ratio_identity (D : nat) (r : Math_t)
    (input : list StereoData) :
  (1 <= D)%nat -> (r == 0)%Q ->
  exists output e',
    Echo.FilterSamples (Echo.Echo D r) input = Some (output, e')
    /\ Forall2 StereoData_eq output input.
Proof.
  intros HD Hr.
  destruct (FilterSamples_stream input (Echo.Echo D r))
    as (output & e' & Hrun & Hlen & _ & _ & Hstream);
    [rewrite length_Echo; lia|].
  exists output, e'. split; [exact Hrun|].
  apply Forall2_same_length_lookup_2; [exact Hlen|].
  intros n out dry Hout Hdry.
  destruct (Hstream n dry Hdry) as (wet & _ & Hout').
  rewrite Hout in Hout'. injection Hout' as ->.
  now apply echo_out_zero_ratio.
Qed.

Lemma Echo_zero_ratio_identity_witness :
  exists output e',
    Echo.FilterSamples (Echo.Echo 2 0) [(1, -1); (1 # 2, 3); (0, 0)]%Q
    = Some (output, e')
    /\ Forall2 StereoData_eq output [(1, -1); (1 # 2, 3); (0, 0)]%Q.
Proof.
  apply (Echo_zero_ratio_identity 2 0 [(1, -1); (1 # 2, 3); (0, 0)]%Q);
    [lia | reflexivity].
Defined.


(** ** Resampler: looping and pausing *)

Section TruncationFacts.
Lemma Qtrunc_comp (q q' : Q) : (q == q')%Q -> Qtrunc q = Qtrunc q'.
Proof.
  destruct q as [a b], q' as [c d]. unfold Qeq, Qtrunc. simpl. intros Heq.
  rewrite <- (Z.quot_mul_cancel_r a (Zpos b) (Zpos d)) by discriminate.
  rewrite Heq, (Z.mul_comm (Zpos b)).
  apply Z.quot_mul_cancel_r; discriminate.
Qed.

Lemma to_u64_comp (q q' : Q) : (q == q')%Q -> to_u64 q = to_u64 q'.
Proof. intros Heq. unfold to_u64. now rewrite (Qtrunc_comp q q' Heq). Qed.


End TruncationFacts.



Section ResamplerLoop.
Import Resampler.
Implicit Types (r : Resampler.t).



End ResamplerLoop.



Section ResamplerCompat.
Import Resampler.
Implicit Types (r : Resampler.t).

Lemma StereoData_eq_refl (a : StereoData) : a =s= a.
Proof. split; reflexivity. Qed.

Lemma StereoData_eq_trans (a b c : StereoData) :
  a =s= b -> b =s= c -> a =s= c.
Proof. intros [H1 H2] [H3 H4]. split; [now rewrite H1 | now rewrite H2]. Qed.

Lemma equiv_refl r : equiv r r.
Proof. repeat split; reflexivity. Qed.

Lemma equiv_trans r1 r2 r3 : equiv r1 r2 -> equiv r2 r3 -> equiv r1 r3.
Proof.
  intros (Hd & Hi & Hc & Hs & Hls & Hle) (Hd' & Hi' & Hc' & Hs' & Hls' & Hle').
  repeat split; try congruence;
    [now rewrite Hi | now rewrite Hc | now rewrite Hs].
Qed.

Lemma advance_compat r1 r2 : equiv r1 r2 -> (advance r1 == advance r2)%Q.
Proof.
  intros (Hd & Hi & Hc & Hs & Hls & Hle). unfold advance, loop_length.
  rewrite Hls, Hle.
  assert (Hnew : (m_Index r1 + m_IndexIncrement r1 * m_PlaybackSpeed r1
                  == m_Index r2 + m_IndexIncrement r2 * m_PlaybackSpeed r2)%Q)
    by now rewrite Hi, Hc, Hs.
  rewrite (Qleb_comp _ _ (Qeq_refl (inject_Z (m_LoopEnd r2))) _ _ Hnew).
  destruct (Qle_bool _ _ && negb _); now rewrite Hnew.
Qed.

(** [Process] only depends on the values of the cursor, the increment and
    the speed: on players that agree up to representation it fails on both
    or returns equal frames and players that agree again. *)
Lemma Process_compat r1 r2 :
  equiv r1 r2 ->
  match Process r1, Process r2 with
  | Some (s1, r1'), Some (s2, r2') => s1 =s= s2 /\ equiv r1' r2'
  | None, None => True
  | _, _ => False
  end.
Proof.
  intros Heq. pose proof (advance_compat r1 r2 Heq) as Hadv.
  pose proof Heq as (Hd & Hi & Hc & Hs & Hls & Hle).
  unfold Process, next_point, loop_length, size.
  rewrite (to_u64_comp _ _ Hi), Hd, Hls, Hle.
  destruct (to_u64 (m_Index r2)) as [idx|]; simpl; [|exact I].
  destruct ((Z.of_nat (length (m_Data r2)) <=? idx) && (m_LoopEnd r2 =? 0)).
  - split; [apply StereoData_eq_refl | exact Heq].
  - assert (Hback : to_u64 (m_Index r1
                            - inject_Z (wrap64 (m_LoopEnd r2 - m_LoopStart r2)))
                    = to_u64 (m_Index r2
                              - inject_Z (wrap64 (m_LoopEnd r2 - m_LoopStart r2))))
      by (apply to_u64_comp; now rewrite Hi).
    rewrite Hback.
    destruct (if (Z.of_nat (length (m_Data r2)) <=? wrap64 (idx + 1))
                 && negb (m_LoopEnd r2 =? 0)
              then _ else _) as [p1|]; simpl; [|exact I].
    destruct (elem (m_Data r2) idx) as [x1|]; simpl; [|exact I].
    split.
    + split; simpl; now rewrite Hi.
    + repeat split; simpl; assumption.
Qed.

(** A paused player: with speed 0, and the cursor not at or past a loop
    end, the cursor does not move. *)
Lemma advance_paused r :
  (m_PlaybackSpeed r == 0)%Q ->
  m_LoopEnd r = 0 \/ (m_Index r < inject_Z (m_LoopEnd r))%Q ->
  (advance r == m_Index r)%Q.
Proof.
  intros Hs Hloop. unfold advance.
  assert (Hnew : (m_Index r + m_IndexIncrement r * m_PlaybackSpeed r
                  == m_Index r)%Q) by (rewrite Hs; ring).
  destruct Hloop as [Hz | Hlt].
  - rewrite Hz. simpl. rewrite andb_false_r. exact Hnew.
  - replace (Qle_bool (inject_Z (m_LoopEnd r))
               (m_Index r + m_IndexIncrement r * m_PlaybackSpeed r))
      with false; [exact Hnew|].
    symmetry. rewrite (Qleb_comp _ _ (Qeq_refl _) _ _ Hnew).
    destruct (Qle_bool (inject_Z (m_LoopEnd r)) (m_Index r)) eqn:Hle;
      [|reflexivity].
    apply Qle_bool_iff in Hle. lra.
Qed.

Lemma Process_n_paused r s r1 :
  Process r = Some (s, r1) -> equiv r1 r ->
  forall n r0, equiv r0 r ->
    exists out r',
      Process_n n r0 = Some (out, r')
      /\ Forall (fun x => x =s= s) out /\ equiv r' r.
Proof.
  intros Hcall Hr1 n. induction n as [|n IH]; intros r0 Hr0.
  - exists [], r0. repeat split; [constructor | apply Hr0..].
  - pose proof (Process_compat r0 r Hr0) as Hc. rewrite Hcall in Hc.
    destruct (Process r0) as [[s0 r0']|] eqn:Hcall0; [|contradiction].
    destruct Hc as [Hs0 Hr0'].
    destruct (IH r0' (equiv_trans _ _ _ Hr0' Hr1)) as (out & r' & Hrun & Hout & Hr').
    exists (s0 :: out), r'. cbn [Process_n]. rewrite Hcall0. simpl.
    rewrite Hrun. simpl. split; [reflexivity|].
    split; [constructor; assumption | exact Hr'].
Qed.
End ResamplerCompat.

(** X5.  With playback speed 0 the player is paused: if a call succeeds and
    the cursor is not at or past a configured loop end, every further call
    returns that same frame and the cursor stays where it is. *)
Theorem Process_paused (r : Resampler.t) (s : StereoData) (r1 : Resampler.t)
    (n : nat) :
  (Resampler.m_PlaybackSpeed r == 0)%Q ->
  Resampler.m_LoopEnd r = 0
  \/ (Resampler.m_Index r < inject_Z (Resampler.m_LoopEnd r))%Q ->
  Resampler.Process r = Some (s, r1) ->
  exists out r',
    Resampler.Process_n n r = Some (out, r')
    /\ Forall (fun x => x =s= s) out
    /\ (Resampler.m_Index r' == Resampler.m_Index r)%Q.
Proof.
  intros Hs Hloop Hcall.
  assert (Hr1 : Resampler.equiv r1 r).
  { destruct (Process_advances r s r1 Hcall) as [-> | ->];
      [apply equiv_refl|].
    repeat split; simpl; try reflexivity. now apply advance_paused. }
  destruct (Process_n_paused r s r1 Hcall Hr1 n r (equiv_refl r))
    as (out & r' & Hrun & Hout & Hr').
  exists out, r'. split; [exact Hrun|]. split; [exact Hout|]. apply Hr'.
Qed.

Lemma Process_paused_witness :
  exists out r',
    Resampler.Process_n 3
      (Resampler.mk ResamplerInstances.ramp (5 # 4) 1 0 0 0) = Some (out, r')
    /\ Forall (fun x => x =s= ((5 # 16)%Q, (-5 # 16)%Q)) out
    /\ (Resampler.m_Index r' == 5 # 4)%Q.
Proof.
  destruct (Resampler.Process
              (Resampler.mk ResamplerInstances.ramp (5 # 4) 1 0 0 0))
    as [[s r1]|] eqn:Hcall; [|vm_compute in Hcall; discriminate].
  assert (Hs : s =s= ((5 # 16)%Q, (-5 # 16)%Q)).
  { vm_compute in Hcall. injection Hcall as <- _. split; reflexivity. }
  destruct (Process_paused
              (Resampler.mk ResamplerInstances.ramp (5 # 4) 1 0 0 0) s r1 3)
    as (out & r' & Hrun & Hout & Hidx);
    [reflexivity | left; reflexivity | exact Hcall |].
  exists out, r'. split; [exact Hrun|]. split; [|exact Hidx].
  eapply Forall_impl; [exact Hout|]. intros x Hx.
  exact (StereoData_eq_trans _ _ _ Hx Hs).
Defined.

Section ResamplerPeriod.
Import Resampler.
Implicit Types (r : Resampler.t).

Lemma Process_n_app n1 n2 r :
  Process_n (n1 + n2) r
  = '(o1, r1) ← Process_n n1 r;
    '(o2, r2) ← Process_n n2 r1;
    Some (o1 ++ o2, r2).
Proof.
  revert r. induction n1 as [|n1 IH]; intros r; cbn [Nat.add Process_n].
  - simpl. destruct (Process_n n2 r) as [[o2 r2]|]; reflexivity.
  - destruct (Process r) as [[s r1]|]; simpl; [|reflexivity].
    rewrite IH. destruct (Process_n n1 r1) as [[o1 r1']|]; simpl;
      [|reflexivity].
    destruct (Process_n n2 r1') as [[o2 r2]|]; reflexivity.
Qed.

Lemma Process_n_S n r s r1 ss r2 :
  Process r = Some (s, r1) -> Process_n n r1 = Some (ss, r2) ->
  Process_n (S n) r = Some (s :: ss, r2).
Proof. intros H1 H2. cbn [Process_n]. rewrite H1. simpl. now rewrite H2. Qed.

(** One call inside the WAV generator's loop at one frame per call: the
    frame under the cursor is returned, and the cursor moves to the next
    integer, or back to 0 from the last one before the loop end. *)
Lemma Process_loop_step r (k : nat) s :
  loop_step r k -> m_Data r !! k = Some s ->
  exists out r',
    Process r = Some (out, r') /\ out =s= s /\ m_Data r' = m_Data r
    /\ loop_step r' (if Z.of_nat k + 1 <? m_LoopEnd r then S k else 0%nat).
Proof.
  intros (Hls & Hle & Hpos & Hidx & Hk & Hstep & Hsize) Hs.
  assert (Hto : to_u64 (m_Index r) = Some (Z.of_nat k))
    by (apply to_u64_inject_Z; [exact Hidx | lia]).
  assert (Hnz : (m_LoopEnd r =? 0) = false) by (apply Z.eqb_neq; lia).
  assert (Hnext : (size r <=? wrap64 (Z.of_nat k + 1)) = false)
    by (rewrite wrap64_small by lia; apply Z.leb_gt; lia).
  destruct (lookup_lt_is_Some_2 (m_Data r) (Z.to_nat (Z.of_nat k + 1)))
    as [p1 Hp1]; [unfold size in *; lia|].
  assert (Hx1 : m_Data r !! Z.to_nat (Z.of_nat k) = Some s)
    by now rewrite Nat2Z.id.
  assert (Hcall : Process r
    = Some (((Left s + (m_Index r - inject_Z (Z.of_nat k))
                       * (Left p1 - Left s))%Q,
             (Right s + (m_Index r - inject_Z (Z.of_nat k))
                        * (Right p1 - Right s))%Q),
            Resampler.mk (m_Data r) (advance r) (m_IndexIncrement r)
              (m_PlaybackSpeed r) (m_LoopStart r) (m_LoopEnd r))).
  { unfold Process. rewrite Hto. remember (Z.of_nat k) as kz.
    simpl. rewrite Hnz, andb_false_r.
    unfold next_point. rewrite Hnext. simpl. rewrite wrap64_small by lia.
    unfold elem. rewrite Hp1. simpl. rewrite Hx1. reflexivity. }
  rewrite Hcall.
  eexists _, _. split; [reflexivity|].
  assert (Hfrac : (m_Index r - inject_Z (Z.of_nat k) == 0)%Q)
    by (rewrite Hidx; ring).
  split; [split; simpl; rewrite Hfrac; ring|].
  split; [reflexivity|].
  assert (Hnew : (m_Index r + m_IndexIncrement r * m_PlaybackSpeed r
                  == inject_Z (Z.of_nat k + 1))%Q)
    by (rewrite Hidx, Hstep, inject_Z_plus; reflexivity).
  unfold loop_step, size. simpl.
  repeat split; try assumption; unfold advance, loop_length.
  - rewrite (Qleb_comp _ _ (Qeq_refl _) _ _ Hnew), Hnz. simpl.
    destruct (Z.of_nat k + 1 <? m_LoopEnd r) eqn:Hwrap.
    + apply Z.ltb_lt in Hwrap.
      replace (Qle_bool _ _) with false.
      * simpl. rewrite Hnew. now rewrite Nat2Z.inj_succ, <- Z.add_1_r.
      * symmetry. destruct (Qle_bool _ _) eqn:Hq; [|reflexivity].
        apply Qle_bool_iff in Hq. rewrite <- Zle_Qle in Hq. lia.
    + apply Z.ltb_ge in Hwrap.
      replace (Qle_bool _ _) with true
        by (symmetry; apply Qle_bool_iff; rewrite <- Zle_Qle; lia).
      simpl. rewrite Hnew, Hls, Z.sub_0_r, wrap64_small by lia.
      assert (Heq : Z.of_nat k + 1 = m_LoopEnd r) by lia.
      rewrite Heq. simpl. ring.
  - destruct (Z.of_nat k + 1 <? m_LoopEnd r) eqn:Hwrap; [|lia].
    apply Z.ltb_lt in Hwrap. lia.
Qed.

(** From cursor [k], the calls up to the loop end return the frames
    [k .. loop end - 1] and bring the cursor back to 0. *)
Lemma Process_n_loop_rest n : forall r k,
  loop_step r k -> Z.of_nat (k + S n) = m_LoopEnd r ->
  exists out r',
    Process_n (S n) r = Some (out, r')
    /\ Forall2 StereoData_eq out (take (S n) (drop k (m_Data r)))
    /\ m_Data r' = m_Data r /\ loop_step r' 0.
Proof.
  induction n as [|n IH]; intros r k Hr Hend.
  - pose proof Hr as (_ & Hle & _ & _ & _ & _ & _).
    destruct (lookup_lt_is_Some_2 (m_Data r) k) as [s Hs];
      [unfold size in Hle; lia|].
    destruct (Process_loop_step r k s Hr Hs) as (o & r1 & Hcall & Ho & Hd & Hr1).
    replace (Z.of_nat k + 1 <? m_LoopEnd r) with false in Hr1
      by (symmetry; apply Z.ltb_ge; lia).
    exists [o], r1.
    split; [exact (Process_n_S 0 _ _ _ _ _ Hcall eq_refl)|].
    rewrite (drop_S _ _ _ Hs). simpl.
    split; [constructor; [exact Ho | constructor]|]. split; assumption.
  - pose proof Hr as (_ & Hle & _ & _ & _ & _ & _).
    destruct (lookup_lt_is_Some_2 (m_Data r) k) as [s Hs];
      [unfold size in Hle; lia|].
    destruct (Process_loop_step r k s Hr Hs) as (o & r1 & Hcall & Ho & Hd & Hr1).
    replace (Z.of_nat k + 1 <? m_LoopEnd r) with true in Hr1
      by (symmetry; apply Z.ltb_lt; lia).
    assert (Hle1 : m_LoopEnd r1 = m_LoopEnd r).
    { destruct Hr1 as (_ & Hle1 & _). unfold size in *. rewrite Hd in Hle1.
      congruence. }
    destruct (IH r1 (S k) Hr1) as (out & r2 & Hrun & Hout & Hd2 & Hr2);
      [rewrite Hle1; lia|].
    exists (o :: out), r2.
    split; [exact (Process_n_S _ _ _ _ _ _ Hcall Hrun)|].
    rewrite (drop_S _ _ _ Hs).
    change (take (S (S n)) (s :: drop (S k) (m_Data r)))
      with (s :: take (S n) (drop (S k) (m_Data r))).
    split; [constructor; [exact Ho | now rewrite <- Hd]|].
    split; [congruence | exact Hr2].
Qed.

(** Whole periods, one after the other. *)
Lemma Process_n_periods m : forall r,
  loop_step r 0 ->
  exists out r',
    Process_n (m * Z.to_nat (m_LoopEnd r)) r = Some (out, r')
    /\ Forall2 StereoData_eq out
         (concat (replicate m (take (Z.to_nat (m_LoopEnd r)) (m_Data r))))
    /\ m_Data r' = m_Data r /\ m_LoopEnd r' = m_LoopEnd r /\ loop_step r' 0.
Proof.
  induction m as [|m IH]; intros r Hr.
  - exists [], r. simpl.
    split; [reflexivity|]. split; [constructor|].
    split; [reflexivity|]. split; [reflexivity | exact Hr].
  - pose proof Hr as (_ & Hle & Hpos & _).
    destruct (Z.to_nat (m_LoopEnd r)) as [|L] eqn:HL; [lia|].
    destruct (Process_n_loop_rest L r 0 Hr) as (o1 & r1 & Hrun1 & Ho1 & Hd1 & Hr1);
      [lia|].
    assert (Hle1 : m_LoopEnd r1 = m_LoopEnd r).
    { destruct Hr1 as (_ & Hle1 & _). unfold size in *. rewrite Hd1 in Hle1.
      congruence. }
    destruct (IH r1 Hr1) as (o2 & r2 & Hrun2 & Ho2 & Hd2 & Hle2 & Hr2).
    rewrite Hle1, HL in Hrun2. rewrite Hle1, HL, Hd1 in Ho2.
    exists (o1 ++ o2), r2.
    change (S m * S L)%nat with (S L + m * S L)%nat.
    rewrite Process_n_app, Hrun1. simpl. rewrite Hrun2. simpl.
    split; [reflexivity|]. split.
    + apply Forall2_app; [|exact Ho2]. rewrite drop_0 in Ho1. exact Ho1.
    + split; [congruence|]. split; [congruence | exact Hr2].
Qed.
End ResamplerPeriod.

(** X6.  The loop the WAV generator configures (start 0, end at the last
    frame) played at one frame per call repeats the frames before the last
    one: over [m] periods of [size - 1] calls the player returns [m] times
    the buffer without its last frame, which is never returned. *)
Theorem Resampler_loop_periodic (OCAE_INC_RATE : Math_t)
    (AudioData : list StereoData) (SourceSampleRate : Z) (m : nat) :
  (inject_Z SourceSampleRate * OCAE_INC_RATE == 1)%Q ->
  (2 <= length AudioData)%nat ->
  Z.of_nat (length AudioData) < two64 ->
  exists out r',
    Resampler.Process_n (m * (length AudioData - 1))
      (Resampler.Resampler OCAE_INC_RATE AudioData SourceSampleRate 0
         (Z.of_nat (length AudioData) - 1))
    = Some (out, r')
    /\ Forall2 StereoData_eq out
         (concat (replicate m (take (length AudioData - 1) AudioData))).
Proof.
  intros Hrate Hlen Hsize.
  destruct (Process_n_periods m
              (Resampler.Resampler OCAE_INC_RATE AudioData SourceSampleRate 0
                 (Z.of_nat (length AudioData) - 1)))
    as (out & r' & Hrun & Hout & _).
  - unfold Resampler.loop_step, Resampler.size. simpl.
    repeat split; try lia; try reflexivity. rewrite Hrate. reflexivity.
  - simpl in Hrun, Hout.
    replace (Z.to_nat (Z.of_nat (length AudioData) - 1))
      with (length AudioData - 1)%nat in Hrun, Hout by lia.
    exists out, r'. split; assumption.
Qed.

Lemma Resampler_loop_periodic_witness :
  exists out r',
    Resampler.Process_n 6 ResamplerInstances.looping = Some (out, r')
    /\ Forall2 StereoData_eq out
         (take 3 ResamplerInstances.ramp ++ take 3 ResamplerInstances.ramp).
Proof.
  destruct (Resampler_loop_periodic ResamplerInstances.tick
              ResamplerInstances.ramp 44100 2)
    as (out & r' & Hrun & Hout);
    [reflexivity | simpl; lia | reflexivity |].
  exists out, r'. split; [exact Hrun | exact Hout].
Defined.

(** ** Triangle oscillator: period and frequency changes *)

Section TrianglePeriod.
Import Triangle.
Implicit Types (g : Triangle.t).

Lemma Qnat_S (n : nat) : (Qnat (S n) == Qnat n + 1)%Q.
Proof.
  unfold Qnat. rewrite Nat2Z.inj_succ, <- Z.add_1_r, inject_Z_plus.
  reflexivity.
Qed.

Lemma Qnat_le (j k : nat) : (j <= k)%nat -> (Qnat j <= Qnat k)%Q.
Proof. intros Hjk. unfold Qnat. rewrite <- Zle_Qle. lia. Qed.

Lemma Qnat_add (a b : nat) : (Qnat (a + b) == Qnat a + Qnat b)%Q.
Proof. unfold Qnat. rewrite Nat2Z.inj_add, inject_Z_plus. reflexivity. Qed.

Lemma Qnat_0 : (Qnat 0 == 0)%Q.
Proof. reflexivity. Qed.

Lemma snd_SendSamples_S n g :
  snd (SendSamples (S n) g) = snd (SendSamples n (snd (SendSample g))).
Proof.
  cbn [SendSamples]. destruct (SendSample g) as [s g1]. simpl.
  destruct (SendSamples n g1). reflexivity.
Qed.

Lemma snd_SendSamples_1 g : snd (SendSamples 1 g) = snd (SendSample g).
Proof. now rewrite snd_SendSamples_S. Qed.

Lemma snd_SendSamples_app n1 n2 : forall g,
  snd (SendSamples (n1 + n2) g)
  = snd (SendSamples n2 (snd (SendSamples n1 g))).
Proof.
  induction n1 as [|n1 IH]; intros g; [reflexivity|].
  cbn [Nat.add]. now rewrite !snd_SendSamples_S, IH.
Qed.

(** Between two turning points the phase moves by the rate at every call. *)
Lemma SendSample_ramp g :
  (-1 < m_Inc g + m_Irate g)%Q -> (m_Inc g + m_Irate g < 1)%Q ->
  SendSample g
  = (MONO_TO_STEREO (m_Inc g + m_Irate g)%Q,
     Triangle.mk (m_Irate g) (m_Inc g + m_Irate g)%Q).
Proof.
  intros Hlo Hhi. unfold SendSample.
  replace (Qle_bool 1 (m_Inc g + m_Irate g)) with false.
  - replace (Qle_bool (m_Inc g + m_Irate g) (-1)) with false; [reflexivity|].
    symmetry. destruct (Qle_bool _ _) eqn:Hq; [|reflexivity].
    apply Qle_bool_iff in Hq. lra.
  - symmetry. destruct (Qle_bool _ _) eqn:Hq; [|reflexivity].
    apply Qle_bool_iff in Hq. lra.
Qed.

Lemma SendSamples_ramp n : forall g,
  (forall j, (1 <= j <= n)%nat ->
     (-1 < m_Inc g + Qnat j * m_Irate g)%Q
     /\ (m_Inc g + Qnat j * m_Irate g < 1)%Q) ->
  m_Irate (snd (SendSamples n g)) = m_Irate g
  /\ (m_Inc (snd (SendSamples n g)) == m_Inc g + Qnat n * m_Irate g)%Q.
Proof.
  induction n as [|n IH]; intros g Hin.
  - simpl. split; [reflexivity|]. rewrite Qnat_0. lra.
  - rewrite snd_SendSamples_S.
    destruct (Hin 1%nat ltac:(lia)) as [Hlo Hhi].
    assert (H1 : (Qnat 1 == 1)%Q) by reflexivity. rewrite H1 in Hlo, Hhi.
    rewrite SendSample_ramp by lra. simpl.
    destruct (IH (Triangle.mk (m_Irate g) (m_Inc g + m_Irate g)%Q))
      as [Hrate Hinc].
    + intros j Hj. simpl.
      destruct (Hin (S j) ltac:(lia)) as [Hlo' Hhi'].
      rewrite Qnat_S in Hlo', Hhi'. split; lra.
    + simpl in Hrate, Hinc. split; [exact Hrate|].
      rewrite Hinc, Qnat_S. nra.
Qed.

(** The upper turning point, reached exactly. *)
Lemma SendSample_top g :
  (m_Inc g + m_Irate g == 1)%Q ->
  m_Irate (snd (SendSample g)) = (- m_Irate g)%Q
  /\ (m_Inc (snd (SendSample g)) == 1)%Q.
Proof.
  intros Htop. unfold SendSample.
  replace (Qle_bool 1 (m_Inc g + m_Irate g)) with true
    by (symmetry; apply Qle_bool_iff; lra).
  simpl. split; [reflexivity | lra].
Qed.

(** The lower turning point, reached exactly. *)
Lemma SendSample_bottom g :
  (m_Inc g + m_Irate g == -1)%Q ->
  m_Irate (snd (SendSample g)) = (- m_Irate g)%Q
  /\ (m_Inc (snd (SendSample g)) == -1)%Q.
Proof.
  intros Hbot. unfold SendSample.
  replace (Qle_bool 1 (m_Inc g + m_Irate g)) with false.
  - replace (Qle_bool (m_Inc g + m_Irate g) (-1)) with true
      by (symmetry; apply Qle_bool_iff; lra).
    simpl. split; [reflexivity | lra].
  - symmetry. destruct (Qle_bool _ _) eqn:Hq; [|reflexivity].
    apply Qle_bool_iff in Hq. lra.
Qed.

(** A full period from phase 0 with a rate of one [k]-th: up to 1, down to
    -1, and back up to 0. *)
Lemma SendSamples_period (k : nat) g :
  (m_Inc g == 0)%Q -> (m_Irate g * Qnat (S k) == 1)%Q ->
  (m_Inc (snd (SendSamples (k + 1 + (k + S k) + 1 + S k) g)) == 0)%Q
  /\ (m_Irate (snd (SendSamples (k + 1 + (k + S k) + 1 + S k) g))
      == m_Irate g)%Q.
Proof.
  intros Hinc Hrate.
  set (a := m_Irate g) in *. set (K := Qnat (S k)) in *.
  assert (HK : (1 <= K)%Q).
  { unfold K. rewrite Qnat_S. pose proof (Qnat_le 0 k ltac:(lia)) as H0.
    rewrite Qnat_0 in H0. lra. }
  assert (Ha : (0 < a)%Q) by nra.
  assert (Hj : forall j, (j <= k)%nat -> (Qnat j * a <= 1 - a)%Q).
  { intros j Hjk. pose proof (Qnat_le j k Hjk) as Hle.
    assert (HkK : (Qnat k == K - 1)%Q) by (unfold K; rewrite Qnat_S; lra).
    nra. }
  assert (Hj0 : forall j, (0 <= Qnat j)%Q).
  { intros j. pose proof (Qnat_le 0 j ltac:(lia)) as H0.
    now rewrite Qnat_0 in H0. }
  (* up to the last step before the top *)
  rewrite (snd_SendSamples_app (k + 1 + (k + S k) + 1) (S k)),
    (snd_SendSamples_app (k + 1 + (k + S k)) 1),
    (snd_SendSamples_app (k + 1) (k + S k)),
    (snd_SendSamples_app k 1), 2 snd_SendSamples_1.
  destruct (SendSamples_ramp k g) as [Hr1 Hi1].
  { intros j Hjk. fold a. specialize (Hj j ltac:(lia)).
    assert (1 <= Qnat j)%Q
      by (pose proof (Qnat_le 1 j ltac:(lia)) as H1; exact H1).
    split; nra. }
  fold a in Hr1, Hi1. set (g1 := snd (SendSamples k g)) in *.
  assert (HkK : (Qnat k == K - 1)%Q) by (unfold K; rewrite Qnat_S; lra).
  (* the top *)
  destruct (SendSample_top g1) as [Hr2 Hi2].
  { rewrite Hr1, Hi1, Hinc, HkK. nra. }
  set (g2 := snd (SendSample g1)) in *.
  rewrite Hr1 in Hr2.
  (* down to the last step before the bottom *)
  destruct (SendSamples_ramp (k + S k) g2) as [Hr3 Hi3].
  { intros j Hjk. rewrite Hr2, Hi2.
    assert (Hjle : (Qnat j <= Qnat k + Qnat k + 1)%Q).
    { pose proof (Qnat_le j (k + S k) ltac:(lia)) as Hle.
      rewrite Qnat_add, Qnat_S in Hle. lra. }
    assert (1 <= Qnat j)%Q
      by (pose proof (Qnat_le 1 j ltac:(lia)) as H1; exact H1).
    split; nra. }
  set (g3 := snd (SendSamples (k + S k) g2)) in *.
  rewrite Hr2 in Hr3. rewrite Hi2, Hr2 in Hi3.
  assert (H2k : (Qnat (k + S k) == K + K - 1)%Q).
  { rewrite Qnat_add. fold K. rewrite HkK. lra. }
  (* the bottom *)
  destruct (SendSample_bottom g3) as [Hr4 Hi4].
  { rewrite Hr3, Hi3, H2k. nra. }
  set (g4 := snd (SendSample g3)) in *.
  rewrite Hr3 in Hr4.
  (* back up to 0 *)
  destruct (SendSamples_ramp (S k) g4) as [Hr5 Hi5].
  { intros j Hjk. rewrite Hr4, Hi4.
    pose proof (Qnat_le j (S k) ltac:(lia)) as Hle. fold K in Hle.
    assert (1 <= Qnat j)%Q
      by (pose proof (Qnat_le 1 j ltac:(lia)) as H1; exact H1).
    split; nra. }
  rewrite Hr4 in Hr5. rewrite Hi4, Hr4 in Hi5. fold K in Hi5.
  split; [rewrite Hi5; nra | rewrite Hr5; lra].
Qed.
End TrianglePeriod.

(** X7.  An oscillator whose rate [4 f tickDuration] is one [K]-th, that is
    whose period [1 / (f tickDuration)] is the whole number [4 K] of calls,
    is back at phase 0 with its rate restored after [4 K] calls of
    [SendSample]. *)
Theorem Triangle_period (INC_RATE freq : Math_t) (K : nat) :
  (4 * freq * INC_RATE * Qnat K == 1)%Q ->
  (Triangle.m_Inc
     (snd (Triangle.SendSamples (4 * K) (Triangle.Triangle INC_RATE freq)))
   == 0)%Q
  /\ (Triangle.m_Irate
        (snd (Triangle.SendSamples (4 * K) (Triangle.Triangle INC_RATE freq)))
      == 4 * freq * INC_RATE)%Q.
Proof.
  intros Hrate. destruct K as [|k].
  - exfalso. rewrite Qnat_0 in Hrate. lra.
  - replace (4 * S k)%nat with (k + 1 + (k + S k) + 1 + S k)%nat by lia.
    apply (SendSamples_period k (Triangle.Triangle INC_RATE freq));
      [reflexivity | exact Hrate].
Qed.

Lemma Triangle_period_witness :
  (Triangle.m_Inc
     (snd (Triangle.SendSamples 16 (Triangle.Triangle (1 # 44100) (11025 # 4))))
   == 0)%Q
  /\ (Triangle.m_Irate
        (snd (Triangle.SendSamples 16
                (Triangle.Triangle (1 # 44100) (11025 # 4))))
      == 4 * (11025 # 4) * (1 # 44100))%Q.
Proof.
  apply (Triangle_period (1 # 44100) (11025 # 4) 4). reflexivity.
Defined.

(** X8.  [SetFrequency] keeps the phase and the direction of travel: for a
    frequency that is not negative (times a tick that is not negative) the
    new rate is [4 f tickDuration] when the rate was not negative and its
    opposite when the rate was negative. *)
Theorem SetFrequency_keeps_direction (INC_RATE : Math_t) (g : Triangle.t)
    (freq : Math_t) :
  (0 <= freq * INC_RATE)%Q ->
  Triangle.m_Inc (Triangle.SetFrequency INC_RATE g freq) = Triangle.m_Inc g
  /\ ((0 <= Triangle.m_Irate g)%Q ->
      (Triangle.m_Irate (Triangle.SetFrequency INC_RATE g freq)
       == 4 * freq * INC_RATE)%Q
      /\ (0 <= Triangle.m_Irate (Triangle.SetFrequency INC_RATE g freq))%Q)
  /\ ((Triangle.m_Irate g < 0)%Q ->
      (Triangle.m_Irate (Triangle.SetFrequency INC_RATE g freq)
       == - (4 * freq * INC_RATE))%Q
      /\ (Triangle.m_Irate (Triangle.SetFrequency INC_RATE g freq) <= 0)%Q).
Proof.
  intros Hf. unfold Triangle.SetFrequency.
  split; [reflexivity|]. split; intros Hdir.
  - apply Qle_bool_iff in Hdir. rewrite Hdir. simpl. split; lra.
  - replace (Qle_bool 0 (Triangle.m_Irate g)) with false.
    + simpl. split; lra.
    + symmetry. destruct (Qle_bool _ _) eqn:Hq; [|reflexivity].
      apply Qle_bool_iff in Hq. lra.
Qed.

Lemma SetFrequency_keeps_direction_witness :
  (Triangle.m_Irate
     (Triangle.SetFrequency (1 # 44100) (Triangle.mk (-1 # 10) (1 # 2)) 441)
   == - (4 * 441 * (1 # 44100)))%Q.
Proof.
  destruct (SetFrequency_keeps_direction (1 # 44100)
              (Triangle.mk (-1 # 10) (1 # 2)) 441) as (_ & _ & Hneg).
  - vm_compute. discriminate.
  - apply Hneg. reflexivity.
Defined.

(** ** WAV decoding *)

Section DecodeFacts.
Import WAV.
Variable OCAE_SQRT_HALF : Math_t.
Implicit Types (h : WAVHeader) (data : list byte).

Lemma int16_at_is_Some data off :
  is_Some (int16_at data off) <-> (S off < length data)%nat.
Proof.
  unfold int16_at. split.
  - intros [r Hr].
    destruct (data !! off) as [lo|]; simpl in Hr; [|discriminate].
    destruct (data !! S off) as [hi|] eqn:Hhi; simpl in Hr; [|discriminate].
    now apply lookup_lt_Some in Hhi.
  - intros Hlen.
    destruct (lookup_lt_is_Some_2 data off) as [lo ->]; [lia|].
    destruct (lookup_lt_is_Some_2 data (S off)) as [hi ->]; [lia|].
    simpl. eauto.
Qed.

(** One iteration succeeds exactly when the bytes it reads are there. *)
Lemma decode_sample_is_Some h data :
  is_Some (decode_sample OCAE_SQRT_HALF h data)
  <-> (frame_width h <= length data)%nat.
Proof.
  unfold decode_sample, frame_width.
  destruct (BitsPerSample h =? 8), (ChannelCount h =? 1).
  - rewrite <- (lookup_lt_is_Some data 0).
    destruct (data !! 0%nat); simpl; split; intros [x Hx];
      try discriminate; eauto.
  - rewrite <- (lookup_lt_is_Some data 1).
    destruct (data !! 0%nat) as [b0|] eqn:H0; simpl.
    + destruct (data !! 1%nat); simpl; split; intros [x Hx];
        try discriminate; eauto.
    + split; intros [x Hx]; [discriminate|].
      apply lookup_lt_Some in Hx.
      destruct (lookup_lt_is_Some_2 data 0) as [? ?]; [lia | congruence].
  - rewrite <- (int16_at_is_Some data 0).
    destruct (int16_at data 0); simpl; split; intros [x Hx];
      try discriminate; eauto.
  - pose proof (int16_at_is_Some data 0) as H0.
    pose proof (int16_at_is_Some data 2) as H2.
    destruct (int16_at data 0) as [r0|]; simpl.
    + destruct (int16_at data 2) as [r1|]; simpl.
      * split; [intros _; apply H2; eauto | eauto].
      * split; [intros [x Hx]; discriminate|].
        intros Hlen. apply H2 in Hlen. destruct Hlen; discriminate.
    + split; [intros [x Hx]; discriminate|].
      intros Hlen. destruct (proj2 H0 ltac:(lia)); discriminate.
Qed.

Lemma frame_width_pos h : (1 <= frame_width h)%nat.
Proof.
  unfold frame_width.
  destruct (BitsPerSample h =? 8), (ChannelCount h =? 1); lia.
Qed.

(** What holds of every frame one iteration can produce holds of every
    decoded frame. *)
Lemma decode_Forall (P : StereoData -> Prop) h :
  (forall data s, decode_sample OCAE_SQRT_HALF h data = Some s -> P s) ->
  forall fuel data frames,
    decode OCAE_SQRT_HALF fuel h data = Some frames -> Forall P frames.
Proof.
  intros HP fuel. induction fuel as [|fuel IH]; intros data frames Hdec.
  - destruct data; [|discriminate]. injection Hdec as <-. constructor.
  - destruct data as [|b data]; [injection Hdec as <-; constructor|].
    cbn [decode] in Hdec.
    destruct (decode_sample OCAE_SQRT_HALF h (b :: data)) as [s|] eqn:Hs;
      simpl in Hdec; [|discriminate].
    destruct (decode OCAE_SQRT_HALF fuel h _) as [rest|] eqn:Hrest;
      simpl in Hdec; [|discriminate].
    injection Hdec as <-. constructor; [now apply (HP (b :: data))|].
    exact (IH _ rest Hrest).
Qed.

Lemma decode_length h fuel : forall data frames,
  BytesPerSample h = Z.of_nat (frame_width h) ->
  decode OCAE_SQRT_HALF fuel h data = Some frames ->
  (length frames * frame_width h = length data)%nat.
Proof.
  induction fuel as [|fuel IH]; intros data frames Hbps Hdec.
  - destruct data; [|discriminate]. now injection Hdec as <-.
  - destruct data as [|b data]; [now injection Hdec as <-|].
    cbn [decode] in Hdec.
    destruct (decode_sample OCAE_SQRT_HALF h (b :: data)) as [s|] eqn:Hs;
      simpl in Hdec; [|discriminate].
    assert (Hw : (frame_width h <= length (b :: data))%nat)
      by (apply decode_sample_is_Some; eauto).
    destruct (decode OCAE_SQRT_HALF fuel h _) as [rest|] eqn:Hrest;
      simpl in Hdec; [|discriminate].
    injection Hdec as <-. apply IH in Hrest; [|exact Hbps].
    rewrite Hbps, Nat2Z.id, length_drop in Hrest. simpl length in *. lia.
Qed.

Lemma decode_whole_frames h n : forall fuel data,
  BytesPerSample h = Z.of_nat (frame_width h) ->
  (length data = n * frame_width h)%nat -> (length data <= fuel)%nat ->
  exists frames,
    decode OCAE_SQRT_HALF fuel h data = Some frames /\ length frames = n.
Proof.
  pose proof (frame_width_pos h) as Hpos.
  induction n as [|n IH]; intros fuel data Hbps Hlen Hfuel.
  - destruct data; [|discriminate]. exists []. now destruct fuel.
  - destruct data as [|b data]; [simpl in Hlen; lia|].
    destruct fuel as [|fuel]; [simpl in Hfuel; lia|]. cbn [decode].
    destruct (proj2 (decode_sample_is_Some h (b :: data))) as [s Hs];
      [lia|].
    rewrite Hs. simpl. rewrite Hbps, Nat2Z.id.
    destruct (IH fuel (drop (frame_width h) (b :: data)) Hbps)
      as (rest & Hrest & Hn); [rewrite length_drop; lia..|].
    rewrite Hrest. simpl. exists (s :: rest). split; [reflexivity|].
    simpl. now rewrite Hn.
Qed.

Lemma char_value_bounds (b : byte) : -128 <= char_value b <= 127.
Proof.
  unfold char_value. pose proof (Byte.to_N_bounded b) as Hb.
  destruct (Z.of_N (Byte.to_N b) <? 128) eqn:Hlt;
    [apply Z.ltb_lt in Hlt | apply Z.ltb_ge in Hlt]; lia.
Qed.

Lemma int16_at_bounds data off r :
  int16_at data off = Some r -> -32768 <= r <= 32767.
Proof.
  unfold int16_at. intros Hr.
  destruct (data !! off) as [lo|]; simpl in Hr; [|discriminate].
  destruct (data !! S off) as [hi|]; simpl in Hr; [|discriminate].
  injection Hr as <-.
  pose proof (Byte.to_N_bounded lo). pose proof (Byte.to_N_bounded hi).
  destruct (_ <? 32768) eqn:Hlt;
    [apply Z.ltb_lt in Hlt | apply Z.ltb_ge in Hlt]; lia.
Qed.

(** A sample value scaled by [1/32768], with or without the mono factor. *)
Lemma scaled_within (z : Z) (c : Q) :
  -32768 <= z <= 32767 -> (0 <= c)%Q -> (c <= 1)%Q ->
  (-1 <= inject_Z z * c / 32768)%Q /\ (inject_Z z * c / 32768 <= 1)%Q.
Proof.
  intros [Hlo Hhi] Hc0 Hc1.
  rewrite Zle_Qle in Hlo, Hhi.
  change (inject_Z (-32768)) with (-32768)%Q in Hlo.
  change (inject_Z 32767) with 32767%Q in Hhi.
  set (x := inject_Z z) in *.
  assert (H1 : (0 <= (x + 32768) * c)%Q)
    by (apply Qmult_le_0_compat; lra).
  assert (H2 : (0 <= (32767 - x) * c)%Q)
    by (apply Qmult_le_0_compat; lra).
  unfold Qdiv. change (/ 32768)%Q with (1 # 32768)%Q.
  split; nra.
Qed.

Lemma decode_sample_within h data s :
  (0 <= OCAE_SQRT_HALF)%Q -> (OCAE_SQRT_HALF <= 1)%Q ->
  decode_sample OCAE_SQRT_HALF h data = Some s ->
  StereoData_within (-1) 1 s.
Proof.
  intros Hc0 Hc1. unfold decode_sample, StereoData_within.
  assert (Hchar : forall b, -32768 <= char_value b * 256 <= 32767)
    by (intros b; pose proof (char_value_bounds b); lia).
  assert (Hone : forall z, (inject_Z z / 32768 == inject_Z z * 1 / 32768)%Q)
    by (intros z; now rewrite Qmult_1_r).
  destruct (BitsPerSample h =? 8), (ChannelCount h =? 1); intros Hs.
  - destruct (data !! 0%nat) as [b|]; simpl in Hs; [|discriminate].
    injection Hs as <-. simpl.
    pose proof (scaled_within _ _ (Hchar b) Hc0 Hc1). tauto.
  - destruct (data !! 0%nat) as [b0|]; simpl in Hs; [|discriminate].
    destruct (data !! 1%nat) as [b1|]; simpl in Hs; [|discriminate].
    injection Hs as <-. simpl. rewrite !Hone.
    pose proof (scaled_within _ 1 (Hchar b0) ltac:(lra) ltac:(lra)).
    pose proof (scaled_within _ 1 (Hchar b1) ltac:(lra) ltac:(lra)). tauto.
  - destruct (int16_at data 0) as [r|] eqn:Hr; simpl in Hs; [|discriminate].
    injection Hs as <-. simpl.
    pose proof (scaled_within _ _ (int16_at_bounds _ _ _ Hr) Hc0 Hc1). tauto.
  - destruct (int16_at data 0) as [r0|] eqn:Hr0; simpl in Hs; [|discriminate].
    destruct (int16_at data 2) as [r1|] eqn:Hr1; simpl in Hs; [|discriminate].
    injection Hs as <-. simpl. rewrite !Hone.
    pose proof (scaled_within _ 1 (int16_at_bounds _ _ _ Hr0)
                  ltac:(lra) ltac:(lra)).
    pose proof (scaled_within _ 1 (int16_at_bounds _ _ _ Hr1)
                  ltac:(lra) ltac:(lra)). tauto.
Qed.

Lemma decode_sample_mono h data s :
  ChannelCount h = 1 ->
  decode_sample OCAE_SQRT_HALF h data = Some s -> Left s = Right s.
Proof.
  intros Hmono. unfold decode_sample. rewrite Hmono. simpl.
  destruct (BitsPerSample h =? 8); intros Hs.
  - destruct (data !! 0%nat); simpl in Hs; [|discriminate].
    now injection Hs as <-.
  - destruct (int16_at data 0); simpl in Hs; [|discriminate].
    now injection Hs as <-.
Qed.
End DecodeFacts.

(** X9.  A mono file decodes to frames whose two channels are equal, for
    8-bit and for 16-bit samples. *)
Theorem decode_mono_duplicates (OCAE_SQRT_HALF : Math_t) (h : WAV.WAVHeader)
    (fuel : nat) (data : list byte) (frames : list StereoData) :
  WAV.ChannelCount h = 1 ->
  WAV.decode OCAE_SQRT_HALF fuel h data = Some frames ->
  Forall (fun s => Left s = Right s) frames.
Proof.
  intros Hmono Hdec.
  apply (decode_Forall OCAE_SQRT_HALF _ h) with (fuel := fuel) (data := data);
    [|exact Hdec].
  intros d s Hs. exact (decode_sample_mono OCAE_SQRT_HALF h d s Hmono Hs).
Qed.

Lemma decode_mono_duplicates_witness :
  exists frames,
    WAV.decode WAVInstances.sqrt_half 2 (WAV.mk_header 1 44100 1 8) [x40; xc0]
    = Some frames
    /\ Forall (fun s => Left s = Right s) frames.
Proof.
  destruct (WAV.decode WAVInstances.sqrt_half 2 (WAV.mk_header 1 44100 1 8)
              [x40; xc0]) as [frames|] eqn:Hdec;
    [|vm_compute in Hdec; discriminate].
  exists frames. split; [reflexivity|].
  apply (decode_mono_duplicates WAVInstances.sqrt_half
           (WAV.mk_header 1 44100 1 8) 2 [x40; xc0] frames);
    [reflexivity | exact Hdec].
Defined.

(** X10.  With a mono factor between 0 and 1, every decoded sample lies
    within [-1, 1], whatever the bytes and the header say. *)
Theorem decode_within_unit (OCAE_SQRT_HALF : Math_t) (h : WAV.WAVHeader)
    (fuel : nat) (data : list byte) (frames : list StereoData) :
  (0 <= OCAE_SQRT_HALF)%Q -> (OCAE_SQRT_HALF <= 1)%Q ->
  WAV.decode OCAE_SQRT_HALF fuel h data = Some frames ->
  Forall (StereoData_within (-1) 1) frames.
Proof.
  intros Hc0 Hc1 Hdec.
  apply (decode_Forall OCAE_SQRT_HALF _ h) with (fuel := fuel) (data := data);
    [|exact Hdec].
  intros d s Hs. exact (decode_sample_within OCAE_SQRT_HALF h d s Hc0 Hc1 Hs).
Qed.

Lemma decode_within_unit_witness :
  exists frames,
    WAV.decode WAVInstances.sqrt_half 4 (WAV.mk_header 2 44100 4 16)
      [x00; x80; xff; x7f] = Some frames
    /\ Forall (StereoData_within (-1) 1) frames.
Proof.
  destruct (WAV.decode WAVInstances.sqrt_half 4 (WAV.mk_header 2 44100 4 16)
              [x00; x80; xff; x7f]) as [frames|] eqn:Hdec;
    [|vm_compute in Hdec; discriminate].
  exists frames. split; [reflexivity|].
  apply (decode_within_unit WAVInstances.sqrt_half
           (WAV.mk_header 2 44100 4 16) 4 [x00; x80; xff; x7f] frames);
    [vm_compute; discriminate | vm_compute; discriminate | exact Hdec].
Defined.

(** X11.  When the format chunk has the right size and the header's
    bytes-per-sample is the width of one frame, [ParseWAV] succeeds exactly
    on a data chunk that is not empty and is made of whole frames; it then
    writes no error line and sets a resampler over one frame per
    [frame_width] bytes.  On an empty chunk the first byte it addresses is
    not there, and on a chunk that ends inside a frame the last iteration
    reads past the chunk. *)
Theorem ParseWAV_whole_frames_iff
    (OCAE_INC_RATE OCAE_SQRT_HALF : Math_t) (sizeof_WAVHeader : nat)
    (header_of : list byte -> WAV.WAVHeader)
    (GetChunk : list byte -> string -> list byte)
    (g : WAV.t) (array : list byte) :
  length (GetChunk array "fmt ") = sizeof_WAVHeader ->
  WAV.BytesPerSample (header_of (GetChunk array "fmt "))
  = Z.of_nat (WAV.frame_width (header_of (GetChunk array "fmt "))) ->
  (is_Some (WAV.ParseWAV OCAE_INC_RATE OCAE_SQRT_HALF sizeof_WAVHeader
              header_of GetChunk g array)
   <-> GetChunk array "data" <> []
       /\ Nat.divide (WAV.frame_width (header_of (GetChunk array "fmt ")))
                     (length (GetChunk array "data")))
  /\ forall g' err,
       WAV.ParseWAV OCAE_INC_RATE OCAE_SQRT_HALF sizeof_WAVHeader header_of
         GetChunk g array = Some (g', err) ->
       err = []
       /\ exists r,
            WAV.m_Resampler g' = Some r
            /\ (length (Resampler.m_Data r)
                * WAV.frame_width (header_of (GetChunk array "fmt "))
                = length (GetChunk array "data"))%nat.
Proof.
  intros Hfmt Hbps. unfold WAV.ParseWAV.
  apply Nat.eqb_eq in Hfmt. rewrite Hfmt. cbn [negb].
  set (h := header_of (GetChunk array "fmt ")) in *.
  pose proof (frame_width_pos h) as Hpos.
  replace (WAV.BytesPerSample h =? 0) with false
    by (symmetry; apply Z.eqb_neq; lia).
  destruct (GetChunk array "data") as [|b data] eqn:Hdata.
  - split; [split|].
    + intros [x Hx]. discriminate.
    + intros [Hne _]. now destruct Hne.
    + intros g' err Hparse. discriminate.
  - destruct (WAV.decode OCAE_SQRT_HALF (length (b :: data)) h (b :: data))
      as [frames|] eqn:Hdec; cbn [mbind option_bind].
    + pose proof (decode_length OCAE_SQRT_HALF h _ _ frames Hbps Hdec) as Hlen.
      split; [split|].
      * intros _. split; [discriminate|]. exists (length frames). now symmetry.
      * intros _. eauto.
      * intros g' err Hparse. injection Hparse as <- <-.
        split; [reflexivity|]. eexists. split; [reflexivity|]. exact Hlen.
    + split; [split|].
      * intros [x Hx]. discriminate.
      * intros [_ [n Hn]].
        destruct (decode_whole_frames OCAE_SQRT_HALF h n (length (b :: data))
                    (b :: data) Hbps Hn) as (frames & Hdec' & _); [lia|].
        congruence.
      * intros g' err Hparse. discriminate.
Qed.

Lemma ParseWAV_whole_frames_iff_witness :
  is_Some (WAVInstances.ParseWAV WAV.WAV WAVInstances.three_frame_file).
Proof.
  destruct (ParseWAV_whole_frames_iff WAVInstances.tick WAVInstances.sqrt_half
              16 WAVInstances.header_of WAVInstances.GetChunk WAV.WAV
              WAVInstances.three_frame_file) as [[_ Hyes] _].
  - vm_compute. reflexivity.
  - vm_compute. reflexivity.
  - apply Hyes. split.
    + vm_compute. discriminate.
    + exists 3%nat. vm_compute. reflexivity.
Defined.

Section WAVPlayback.
Import WAV.

(** A generator with a resampler plays what the resampler plays. *)
Lemma Process_n_set n : forall g r out r',
  m_Resampler g = Some r ->
  Resampler.Process_n n r = Some (out, r') ->
  WAV.Process_n n g = Some (out, WAV.mk (Some r')).
Proof.
  induction n as [|n IH]; intros g r out r' Hg Hrun.
  - injection Hrun as <- <-. destruct g. simpl in Hg. now subst.
  - cbn [Resampler.Process_n] in Hrun.
    destruct (Resampler.Process r) as [[s r1]|] eqn:Hcall; simpl in Hrun;
      [|discriminate].
    destruct (Resampler.Process_n n r1) as [[ss r2]|] eqn:Hrest;
      simpl in Hrun; [|discriminate].
    injection Hrun as <- <-. cbn [WAV.Process_n]. unfold Process.
    rewrite Hg, Hcall. simpl.
    rewrite (IH (WAV.mk (Some r1)) r1 ss r2 eq_refl Hrest). reflexivity.
Qed.
End WAVPlayback.

(** X12.  A file that cannot be opened leaves the generator unchanged, with
    the one error line and nothing else written; a generator constructed
    from such a path has no resampler and returns the silent frame on every
    call of [Process]. *)
Theorem ReadFile_unreadable
    (OCAE_INC_RATE OCAE_SQRT_HALF : Math_t) (sizeof_WAVHeader : nat)
    (header_of : list byte -> WAV.WAVHeader)
    (GetChunk : list byte -> string -> list byte)
    (open_file : string -> option (list byte))
    (g : WAV.t) (path : string) (n : nat) :
  open_file path = None ->
  WAVFile.ReadFile OCAE_INC_RATE OCAE_SQRT_HALF sizeof_WAVHeader header_of
    GetChunk open_file g path
  = Some (g, ["WAV file " +:+ path +:+ " couldn't be opened."], [])
  /\ exists g0,
       WAVFile.WAV_path OCAE_INC_RATE OCAE_SQRT_HALF sizeof_WAVHeader
         header_of GetChunk open_file path
       = Some (g0, ["WAV file " +:+ path +:+ " couldn't be opened."], [])
       /\ WAV.Process_n n g0 = Some (replicate n silence, g0).
Proof.
  intros Hopen. unfold WAVFile.WAV_path, WAVFile.ReadFile. rewrite Hopen.
  split; [reflexivity|]. exists WAV.WAV. split; [reflexivity|].
  now apply Process_n_unset.
Qed.

Lemma ReadFile_unreadable_witness :
  exists g0,
    WAVFile.WAV_path WAVInstances.tick WAVInstances.sqrt_half 16
      WAVInstances.header_of WAVInstances.GetChunk WAVInstances.open_file
      "missing.wav"
    = Some (g0, ["WAV file missing.wav couldn't be opened."], [])
    /\ WAV.Process_n 2 g0 = Some ([silence; silence], g0).
Proof.
  destruct (ReadFile_unreadable WAVInstances.tick WAVInstances.sqrt_half 16
              WAVInstances.header_of WAVInstances.GetChunk
              WAVInstances.open_file WAV.WAV "missing.wav" 2)
    as [_ Hctor]; [reflexivity|].
  exact Hctor.
Defined.

(** X13.  A file whose format chunk has the right size and whose data chunk
    decodes to at least two frames, at a sampling rate of one frame per
    tick, yields a generator that plays the decoded frames before the last
    one over and over: [m] periods of calls return them [m] times. *)
Theorem ParseWAV_then_loop
    (OCAE_INC_RATE OCAE_SQRT_HALF : Math_t) (sizeof_WAVHeader : nat)
    (header_of : list byte -> WAV.WAVHeader)
    (GetChunk : list byte -> string -> list byte)
    (g : WAV.t) (array : list byte) (frames : list StereoData) (m : nat) :
  length (GetChunk array "fmt ") = sizeof_WAVHeader ->
  WAV.BytesPerSample (header_of (GetChunk array "fmt ")) <> 0 ->
  WAV.decode OCAE_SQRT_HALF (length (GetChunk array "data"))
    (header_of (GetChunk array "fmt ")) (GetChunk array "data") = Some frames ->
  (inject_Z (WAV.SamplingRate (header_of (GetChunk array "fmt ")))
   * OCAE_INC_RATE == 1)%Q ->
  (2 <= length frames)%nat -> Z.of_nat (length frames) < two64 ->
  exists g' out g'',
    WAV.ParseWAV OCAE_INC_RATE OCAE_SQRT_HALF sizeof_WAVHeader header_of
      GetChunk g array = Some (g', [])
    /\ WAV.Process_n (m * (length frames - 1)) g' = Some (out, g'')
    /\ Forall2 StereoData_eq out
         (concat (replicate m (take (length frames - 1) frames))).
Proof.
  intros Hfmt Hbps Hdec Hrate Hlen Hsize.
  set (r := Resampler.Resampler OCAE_INC_RATE frames
              (WAV.SamplingRate (header_of (GetChunk array "fmt "))) 0
              (wrap64 (Z.of_nat (length frames) - 1))).
  assert (Hparse : WAV.ParseWAV OCAE_INC_RATE OCAE_SQRT_HALF sizeof_WAVHeader
                     header_of GetChunk g array
                   = Some (WAV.mk (Some r), [])).
  { unfold WAV.ParseWAV. apply Nat.eqb_eq in Hfmt. rewrite Hfmt. simpl.
    apply Z.eqb_neq in Hbps. rewrite Hbps.
    destruct (GetChunk array "data") as [|b data].
    - simpl in Hdec. injection Hdec as <-. simpl in Hlen. lia.
    - rewrite Hdec. reflexivity. }
  destruct (Process_n_periods m r) as (out & r' & Hrun & Hout & _).
  { unfold r, Resampler.loop_step, Resampler.size. simpl.
    rewrite wrap64_small by lia.
    repeat split; try lia; try reflexivity. rewrite Hrate. reflexivity. }
  unfold r in Hrun, Hout. simpl in Hrun, Hout.
  rewrite wrap64_small in Hrun, Hout by lia.
  replace (Z.to_nat (Z.of_nat (length frames) - 1))
    with (length frames - 1)%nat in Hrun, Hout by lia.
  exists (WAV.mk (Some r)), out, (WAV.mk (Some r')).
  split; [exact Hparse|]. split; [|exact Hout].
  apply (Process_n_set _ (WAV.mk (Some r)) r out r' eq_refl).
  unfold r. rewrite wrap64_small by lia. exact Hrun.
Qed.

Lemma ParseWAV_then_loop_witness :
  exists g' out g'',
    WAVInstances.ParseWAV WAV.WAV WAVInstances.three_frame_file = Some (g', [])
    /\ WAV.Process_n 4 g' = Some (out, g'')
    /\ Forall2 StereoData_eq out
         [((16384 # 32768), (-16384 # 32768)); ((8192 # 32768), (-8192 # 32768));
          ((16384 # 32768), (-16384 # 32768)); ((8192 # 32768), (-8192 # 32768))]%Q.
Proof.
  destruct (WAV.decode WAVInstances.sqrt_half
              (length (WAVInstances.GetChunk WAVInstances.three_frame_file "data"))
              (WAVInstances.header_of
                 (WAVInstances.GetChunk WAVInstances.three_frame_file "fmt "))
              (WAVInstances.GetChunk WAVInstances.three_frame_file "data"))
    as [frames|] eqn:Hdec; [|vm_compute in Hdec; discriminate].
  assert (Hframes : frames = [((16384 # 32768), (-16384 # 32768));
                              ((8192 # 32768), (-8192 # 32768));
                              ((4096 # 32768), (-4096 # 32768))]%Q)
    by (vm_compute in Hdec; congruence).
  destruct (ParseWAV_then_loop WAVInstances.tick WAVInstances.sqrt_half 16
              WAVInstances.header_of WAVInstances.GetChunk WAV.WAV
              WAVInstances.three_frame_file frames 2)
    as (g' & out & g'' & Hparse & Hrun & Hout).
  - vm_compute. reflexivity.
  - vm_compute. discriminate.
  - exact Hdec.
  - vm_compute. reflexivity.
  - rewrite Hframes. simpl. lia.
  - rewrite Hframes. reflexivity.
  - exists g', out, g''. rewrite Hframes in Hrun, Hout.
    split; [exact Hparse|]. split; [exact Hrun | exact Hout].
Defined.

(** ** Vocoder: construction and offsets *)

Section VocoderMore.
Import Vocoder.

Lemma OscSetup_past_table N mu : (4 < N)%nat -> OscSetup N mu = None.
Proof.
  intros HN. unfold OscSetup. apply mapM_None_2, Exists_exists.
  exists 4%nat. split; [apply elem_of_seq; lia | reflexivity].
Qed.

(** A second pass of the loop of [SetOffset] does not see what the first
    one wrote: it only reads the table and the position of each node. *)
Lemma set_carriers_twice mu1 mu2 layer : forall counter layer1,
  set_carriers mu1 counter layer = Some layer1 ->
  set_carriers mu2 counter layer1 = set_carriers mu2 counter layer.
Proof.
  induction layer as [|n layer IH]; intros counter layer1 Hset;
    cbn [set_carriers] in Hset |- *.
  - now injection Hset as <-.
  - destruct (freq !! S counter) as [f|] eqn:Hf; [|discriminate].
    cbn [mbind option_bind] in Hset.
    destruct (GetGenerator n) as [[b|f0]|] eqn:Hgen;
      cbn [mbind option_bind] in Hset; try discriminate.
    destruct (set_carriers mu1 (S counter) layer) as [rest|] eqn:Hrest;
      cbn [mbind option_bind] in Hset; [|discriminate].
    injection Hset as <-. cbn [set_carriers GetGenerator GetModifier].
    rewrite Hf. cbn [mbind option_bind].
    now rewrite (IH (S counter) rest Hrest).
Qed.

Lemma set_carriers_modifiers mu layer : forall counter layer1,
  set_carriers mu counter layer = Some layer1 ->
  GetModifier <$> layer1 = GetModifier <$> layer.
Proof.
  induction layer as [|n layer IH]; intros counter layer1 Hset;
    cbn [set_carriers] in Hset.
  - now injection Hset as <-.
  - destruct (freq !! S counter) as [f|]; [|discriminate].
    cbn [mbind option_bind] in Hset.
    destruct (GetGenerator n) as [[b|f0]|];
      cbn [mbind option_bind] in Hset; try discriminate.
    destruct (set_carriers mu (S counter) layer) as [rest|] eqn:Hrest;
      cbn [mbind option_bind] in Hset; [|discriminate].
    injection Hset as <-. cbn [fmap list_fmap GetModifier].
    f_equal. exact (IH (S counter) rest Hrest).
Qed.
(** The map lemmas at the type of the graph. *)
Lemma graph_lookup_insert_eq (g : graph) (i : nat) (l : list node) :
  <[i := l]> g !! i = Some l.
Proof. unfold graph in *. apply lookup_insert_eq. Qed.

Lemma graph_lookup_insert_ne (g : graph) (i j : nat) (l : list node) :
  i <> j -> <[i := l]> g !! j = g !! j.
Proof. unfold graph in *. apply lookup_insert_ne. Qed.

Lemma graph_insert_insert_eq (g : graph) (i : nat) (l1 l2 : list node) :
  <[i := l2]> (<[i := l1]> g) = <[i := l2]> g.
Proof. unfold graph in *. apply insert_insert_eq. Qed.
End VocoderMore.

(** X14.  The constructor succeeds for one to four bands, four being the
    size of the frequency table: it puts the input node alone in layer 0,
    one band-pass node per band in layer 1 and one carrier per band in layer
    2, built with the first table entries at a factor of 1; with more than
    four bands it reads past the table. *)
Theorem Vocoder_construction (base_input : Vocoder.node) (N : nat) :
  ((1 <= N <= 4)%nat ->
   exists v,
     Vocoder.Vocoder base_input N = Some v
     /\ Vocoder.m_BandCount v = N
     /\ Vocoder.m_Mu v = 1%Q
     /\ Vocoder.m_Sound v !! 0%nat = Some [base_input]
     /\ Vocoder.GetModifier <$> default [] (Vocoder.m_Sound v !! 1%nat)
        = (fun i => Some (Vocoder.BandPass i)) <$> seq 0 N
     /\ Vocoder.carrier_frequencies v
        = (fun f => Some (f * 1)%Q) <$> take N Vocoder.freq)
  /\ ((4 < N)%nat -> Vocoder.Vocoder base_input N = None).
Proof.
  split.
  - intros HN.
    destruct N as [|[|[|[|[|N]]]]]; [lia|..|lia];
      (eexists; split; [reflexivity|]);
      repeat split; vm_compute; reflexivity.
  - intros HN. unfold Vocoder.Vocoder.
    destruct N as [|N]; [lia|]. cbn [Vocoder.BPSetup mbind option_bind].
    now rewrite (OscSetup_past_table (S N) 1 HN).
Qed.

Lemma Vocoder_construction_witness :
  (exists v,
     Vocoder.Vocoder (Vocoder.mk_node None None) 3 = Some v
     /\ Vocoder.carrier_frequencies v
        = [Some (220 * 1)%Q; Some (440 * 1)%Q; Some (660 * 1)%Q])
  /\ Vocoder.Vocoder (Vocoder.mk_node None None) 5 = None.
Proof.
  destruct (Vocoder_construction (Vocoder.mk_node None None) 3) as [Hok _].
  destruct (Vocoder_construction (Vocoder.mk_node None None) 5) as [_ Hno].
  split.
  - destruct Hok as (v & Hv & _ & _ & _ & _ & Hfreq); [lia|].
    exists v. split; [exact Hv | exact Hfreq].
  - apply Hno. lia.
Defined.

(** X15.  Offsets are absolute, not cumulative: after a successful
    [SetOffset p], a call [SetOffset q] gives what it would have given
    directly.  A call only replaces the generators of layer 2 and the
    factor: the band count, the other layers and the modifiers of layer 2
    are kept. *)
Theorem SetOffset_absolute (powf : Math_t -> Math_t -> Math_t)
    (v v1 : Vocoder.t) (p q : Math_t) :
  Vocoder.SetOffset powf v p = Some v1 ->
  Vocoder.SetOffset powf v1 q = Vocoder.SetOffset powf v q
  /\ Vocoder.m_BandCount v1 = Vocoder.m_BandCount v
  /\ Vocoder.m_Mu v1 = powf 2%Q (p / 1200)%Q
  /\ (forall layer, layer <> 2%nat ->
        Vocoder.m_Sound v1 !! layer = Vocoder.m_Sound v !! layer)
  /\ Vocoder.GetModifier <$> default [] (Vocoder.m_Sound v1 !! 2%nat)
     = Vocoder.GetModifier <$> default [] (Vocoder.m_Sound v !! 2%nat).
Proof.
  unfold Vocoder.SetOffset. intros Hset.
  destruct (Vocoder.set_carriers (powf 2%Q (p / 1200)%Q) 0
              (default [] (Vocoder.m_Sound v !! 2%nat)))
    as [layer1|] eqn:Hl1; simpl in Hset; [|discriminate].
  injection Hset as <-.
  cbn [Vocoder.m_Sound Vocoder.m_BandCount Vocoder.m_Mu].
  rewrite graph_lookup_insert_eq. cbn [default from_option id].
  rewrite (set_carriers_twice _ (powf 2%Q (q / 1200)%Q) _ 0 layer1 Hl1).
  split.
  - destruct (Vocoder.set_carriers (powf 2%Q (q / 1200)%Q) 0
                (default [] (Vocoder.m_Sound v !! 2%nat))) as [layer2|];
      simpl; [|reflexivity].
    now rewrite graph_insert_insert_eq.
  - split; [reflexivity|]. split; [reflexivity|]. split.
    + intros layer Hne. apply graph_lookup_insert_ne. congruence.
    + exact (set_carriers_modifiers _ _ 0 layer1 Hl1).
Qed.

Lemma SetOffset_absolute_witness :
  exists v1,
    Vocoder.SetOffset Instances.powf_stub Instances.two_band 100 = Some v1
    /\ Vocoder.SetOffset Instances.powf_stub v1 700
       = Vocoder.SetOffset Instances.powf_stub Instances.two_band 700.
Proof.
  destruct (Vocoder.SetOffset Instances.powf_stub Instances.two_band 100)
    as [v1|] eqn:Hset; [|vm_compute in Hset; discriminate].
  exists v1. split; [reflexivity|].
  exact (proj1 (SetOffset_absolute Instances.powf_stub Instances.two_band v1
                  100 700 Hset)).
Defined.
